(** * pyspecies: the array helpers of the two-species reaction-diffusion solver

    A shallow embedding of [src/pyspecies/_utils.py] (vector packing, the
    residual [f], its derivative helpers [mu] and [nu], the Jacobian block
    builder [block_diags], the banded assembler [merge_diags]) and of the
    constructor of [lib/population.py].

    Python functions become functions into [result]: an exception is a
    value [Raise e].  One-dimensional arrays are lists of scalars, a
    two-dimensional array is a list of rows.  The scalar type is a
    parameter carrying the arithmetic operations the code applies; the laws
    of a commutative ring are assumed only where a statement is an algebraic
    identity, so every other statement holds for whatever arithmetic the
    arrays carry. *)

From Corelib Require Import PrimFloat.
From Stdlib Require Import ZArith List Lia Bool Ring Permutation.
Import ListNotations.

Set Implicit Arguments.

(** ** Exceptions and results *)

Inductive exn : Type :=
| AssertionError
| IndexError
| ValueError.

Inductive result (T : Type) : Type :=
| Ok (v : T)
| Raise (e : exn).

Arguments Ok {T} v.
Arguments Raise {T} e.

Definition bind {S T : Type} (c : result S) (k : S -> result T) : result T :=
  match c with
  | Ok v => k v
  | Raise e => Raise e
  end.

Declare Scope py_scope.
Delimit Scope py_scope with py.
Notation "x <- c ;; k" := (bind c (fun x => k))
  (at level 61, c at next level, right associativity) : py_scope.
Notation "c ;;; k" := (bind c (fun _ => k))
  (at level 61, right associativity) : py_scope.
Open Scope py_scope.

(** [assert b] *)
Definition py_assert (b : bool) : result unit :=
  if b then Ok tt else Raise AssertionError.

(** ** Scalars *)

Class Scalar (F : Type) : Type := {
  zero : F;
  one : F;
  add : F -> F -> F;
  sub : F -> F -> F;
  mul : F -> F -> F;
  neg : F -> F
}.

(** The literal [2] next to a scalar. *)
Definition two {F : Type} `{Scalar F} : F := add one one.

(** The scalars are exact: the operations form a commutative ring. *)
Class ExactScalar (F : Type) {SF : Scalar F} : Prop := {
  scalar_ring : ring_theory zero one add mul sub neg (@eq F)
}.

Arguments ExactScalar F {SF}.

#[export] Instance Z_Scalar : Scalar Z := {
  zero := 0%Z;
  one := 1%Z;
  add := Z.add;
  sub := Z.sub;
  mul := Z.mul;
  neg := Z.opp
}.

#[export] Instance Z_ExactScalar : ExactScalar Z := {| scalar_ring := Zth |}.

(** The arithmetic of float64 arrays: IEEE 754 binary64, which rounds and so
    is no ring. *)
#[export] Instance float_Scalar : Scalar float := {
  zero := 0%float;
  one := 1%float;
  add := PrimFloat.add;
  sub := PrimFloat.sub;
  mul := PrimFloat.mul;
  neg := PrimFloat.opp
}.

(** ** Sequences: indexing and slicing, as Python and numpy do them *)

Module seq.
Section Seq.
Context {T : Type}.

(** An index into a sequence of length [n]: [-n <= i < n], counted from the
    end when negative. *)
Definition normalize_index (n : nat) (i : Z) : option nat :=
  if ((0 <=? i) && (i <? Z.of_nat n))%Z then Some (Z.to_nat i)
  else if ((- Z.of_nat n <=? i) && (i <? 0))%Z then Some (Z.to_nat (i + Z.of_nat n))
  else None.

(** [A[i]] *)
Definition item (A : list T) (i : Z) : result T :=
  match normalize_index (length A) i with
  | Some k =>
      match nth_error A k with
      | Some x => Ok x
      | None => Raise IndexError
      end
  | None => Raise IndexError
  end.

(** A slice bound, clipped into [0 .. n]. *)
Definition clip (n : nat) (i : Z) : nat :=
  Z.to_nat (Z.min (Z.of_nat n) (if (i <? 0)%Z then Z.max 0 (i + Z.of_nat n) else i)).

Definition slice_start (n : nat) (lo : option Z) : nat :=
  match lo with None => 0 | Some i => clip n i end.

Definition slice_stop (n : nat) (hi : option Z) : nat :=
  match hi with None => n | Some i => clip n i end.

(** [A[lo:hi]] *)
Definition slice (A : list T) (lo hi : option Z) : list T :=
  let n := length A in
  let s := slice_start n lo in
  let e := slice_stop n hi in
  firstn (e - s) (skipn s A).

(** [X[lo:hi] = V] on an array: [V] has the length of the slice, or has one
    element, which fills the slice. *)
Definition set_slice (X : list T) (lo hi : option Z) (V : list T) : result (list T) :=
  let n := length X in
  let s := slice_start n lo in
  let e := slice_stop n hi in
  let m := e - s in
  if length V =? m then Ok (firstn s X ++ V ++ skipn (s + m) X)
  else
    match V with
    | [v] => Ok (firstn s X ++ repeat v m ++ skipn (s + m) X)
    | _ => Raise ValueError
    end.
End Seq.
End seq.

(** ** numpy on one- and two-dimensional arrays *)

Module np.
Section Np.
Context {F : Type} `{Scalar F}.

Definition ones (n : nat) : list F := repeat one n.
Definition zeros (n : nat) : list F := repeat zero n.

(** [c * A] for a scalar [c] *)
Definition scale (c : F) (A : list F) : list F := map (mul c) A.

(** [-A] *)
Definition negative (A : list F) : list F := map neg A.

Fixpoint zip_with (op : F -> F -> F) (A B : list F) : list F :=
  match A, B with
  | a :: A', b :: B' => op a b :: zip_with op A' B'
  | _, _ => []
  end.

(** An elementwise operation on two arrays: equal lengths, or one of them
    has a single element, which is used against every element of the other. *)
Definition broadcast (op : F -> F -> F) (A B : list F) : result (list F) :=
  if length A =? length B then Ok (zip_with op A B)
  else
    match A, B with
    | [a], _ => Ok (map (op a) B)
    | _, [b] => Ok (map (fun a => op a b) A)
    | _, _ => Raise ValueError
    end.

Definition vadd := broadcast add.
Definition vsub := broadcast sub.
Definition vmul := broadcast mul.

(** [np.roll(A, s)]: the element at position [p] moves to [(p + s) mod n]. *)
Definition roll (A : list F) (s : Z) : list F :=
  match length A with
  | 0 => A
  | n => let k := n - Z.to_nat (s mod Z.of_nat n) in skipn k A ++ firstn k A
  end.

(** [M[i, j]] *)
Definition item2 (M : list (list F)) (i j : Z) : result F :=
  row <- seq.item M i ;; seq.item row j.

(** [np.concatenate] of one-dimensional arrays *)
Definition concatenate (parts : list (list F)) : list F := concat parts.
End Np.
End np.

(** ** src/pyspecies/_utils.py *)

Section Utils.
Context {F : Type} `{Scalar F}.

Definition XtoUV (X : list F) : result (list F * list F) :=
  let K := (Z.of_nat (length X) / 2)%Z in
  Ok (seq.slice X None (Some K), seq.slice X (Some K) None).

Definition UVtoX (U V : list F) : result (list F) :=
  let K := Z.of_nat (length U) in
  let X := np.zeros (Z.to_nat (2 * K)) in
  X <- seq.set_slice X None (Some K) U ;;
  X <- seq.set_slice X (Some K) None V ;;
  Ok X.

Definition merge_diags (P Q R S : list (list F)) : result (list (list F)) :=
  q0 <- seq.item Q 0 ;;
  q1 <- seq.item Q 1 ;;
  q2 <- seq.item Q 2 ;;
  p0 <- seq.item P 0 ;; q3 <- seq.item Q 3 ;; s0 <- seq.item S 0 ;;
  p1 <- seq.item P 1 ;; q4 <- seq.item Q 4 ;; s1 <- seq.item S 1 ;;
  p2 <- seq.item P 2 ;; s2 <- seq.item S 2 ;;
  p3 <- seq.item P 3 ;; r0 <- seq.item R 0 ;; s3 <- seq.item S 3 ;;
  p4 <- seq.item P 4 ;; r1 <- seq.item R 1 ;; s4 <- seq.item S 4 ;;
  r2 <- seq.item R 2 ;;
  r3 <- seq.item R 3 ;;
  r4 <- seq.item R 4 ;;
  Ok [ q0;
       q1;
       q2;
       np.concatenate [p0; q3; s0];
       np.concatenate [p1; q4; s1];
       np.concatenate [p2; s2];
       np.concatenate [p3; r0; s3];
       np.concatenate [p4; r1; s4];
       r2;
       r3;
       r4 ].

(** The local [center] of [f]. *)
Definition center (i : Z) (A A2 AB : list F) (D R : list (list F)) : result (list F) :=
  r0 <- np.item2 R i 0 ;;
  d0 <- np.item2 D i 0 ;;
  let t0 := np.scale (add (sub one r0) (mul two d0)) A in
  rj <- np.item2 R i (i + 1) ;;
  dj <- np.item2 D i (i + 1) ;;
  let t1 := np.scale (add rj (mul two dj)) A2 in
  t01 <- np.vadd t0 t1 ;;
  rk <- np.item2 R i (2 - i) ;;
  dk <- np.item2 D i (2 - i) ;;
  let t2 := np.scale (add rk (mul two dk)) AB in
  np.vadd t01 t2.

(** The local [border] of [f]. *)
Definition border (i : Z) (A A2 AB : list F) (D : list (list F)) : result (list F) :=
  d0 <- np.item2 D i 0 ;;
  let t0 := np.scale d0 A in
  dj <- np.item2 D i (i + 1) ;;
  let t1 := np.scale dj A2 in
  t01 <- np.vadd t0 t1 ;;
  dk <- np.item2 D i (2 - i) ;;
  let t2 := np.scale dk AB in
  np.vadd t01 t2.

Definition f (i : Z) (A B : list F) (D R : list (list F)) : result (list F) :=
  py_assert ((i =? 0)%Z || (i =? 1)%Z) ;;;
  A2 <- np.vmul A A ;;
  AB <- np.vmul A B ;;
  center <- center i A A2 AB D R ;;
  border <- border i A A2 AB D ;;
  t <- np.vsub center (np.roll border 1) ;;
  np.vsub t (np.roll border (-1)).

Definition mu (i : Z) (A B : list F) (D : list (list F)) : result (list F) :=
  py_assert ((i =? 0)%Z || (i =? 1)%Z) ;;;
  d0 <- np.item2 D i 0 ;;
  let t0 := np.scale d0 (np.ones (length A)) in
  dj <- np.item2 D i (i + 1) ;;
  let t1 := np.scale (mul two dj) A in
  t01 <- np.vadd t0 t1 ;;
  dk <- np.item2 D i (2 - i) ;;
  let t2 := np.scale dk B in
  np.vadd t01 t2.

Definition nu (i : Z) (A B : list F) (D R : list (list F)) : result (list F) :=
  py_assert ((i =? 0)%Z || (i =? 1)%Z) ;;;
  r0 <- np.item2 R i 0 ;;
  d0 <- np.item2 D i 0 ;;
  let t0 := np.scale (add (sub one r0) (mul two d0)) (np.ones (length A)) in
  rj <- np.item2 R i (i + 1) ;;
  dj <- np.item2 D i (i + 1) ;;
  let t1 := np.scale (mul two (add rj (mul two dj))) A in
  t01 <- np.vadd t0 t1 ;;
  rk <- np.item2 R i (2 - i) ;;
  dk <- np.item2 D i (2 - i) ;;
  let t2 := np.scale (add rk (mul two dk)) B in
  np.vadd t01 t2.

Definition block_diags (i : Z) (A : list F) (D R : list (list F))
  : result (list (list F)) :=
  dk <- np.item2 D i (2 - i) ;;
  let DA := np.scale dk A in
  last <- seq.item DA (-1) ;;
  let upper := np.negative (seq.slice DA (Some 1%Z) None) in
  rk <- np.item2 R i (2 - i) ;;
  main <- np.vadd (np.scale rk A) (np.scale two DA) ;;
  let lower := np.negative (seq.slice DA None (Some (-1)%Z)) in
  first <- seq.item DA 0 ;;
  Ok [ [neg last]; upper; main; lower; [neg first] ].
End Utils.

(** ** lib/population.py *)

Module Population.
Section Population.
Context {F : Type} `{Scalar F}.

Record t : Type := {
  D : list (list F);
  Space : list F;
  Xlist : list (list F);
  Tlist : list Z
}.

(** [Population.__init__] *)
Definition __init__ (Space : list F) (u0 v0 : list F -> list F) (D : list (list F))
  : result t :=
  X0 <- UVtoX (u0 Space) (v0 Space) ;;
  Ok {| D := D; Space := Space; Xlist := [X0; X0]; Tlist := [0; 0]%Z |}.
End Population.
End Population.

(** ** Vocabulary of the statements *)

Section Vocabulary.
Context {F : Type} `{Scalar F}.
Implicit Types (A B : list F) (M D R P : list (list F)).

(** [M] has [r] rows of [c] entries each. *)
Definition has_shape M (r c : nat) : bool :=
  (length M =? r) && forallb (fun row => length row =? c) M.

(** The entry of [M] in row [i] and column [j], both counted from zero. *)
Definition entry M (i j : Z) : F :=
  nth (Z.to_nat j) (nth (Z.to_nat i) M []) zero.

(** [P] is a block that [block_diags] returns on some vector of length [K]. *)
Definition is_block (K : nat) P : Prop :=
  exists (i : Z) A D R, length A = K /\ block_diags i A D R = Ok P.

(** The lengths of the bands of [merge_diags], in order: those of the
    diagonals of a [2K] x [2K] matrix at the offsets [2K-1], [K+1], [K],
    [K-1], [1], [0], [-1], [-(K-1)], [-K], [-(K+1)], [-(2K-1)]. *)
Definition band_lengths (K : nat) : list nat :=
  [1; K - 1; K; K + 1; 2 * K - 1; 2 * K; 2 * K - 1; K + 1; K; K - 1; 1].

(** The lengths the specification lists. *)
Definition listed_band_lengths (K : nat) : list nat :=
  [K; K; K; K - 1; K - 1; K - 2; K - 1; K - 1; K; K; K].

(** The [center] and [border] formulas as the specification writes them,
    one grid node at a time, with [j = i + 1] and [k = 2 - i]. *)
Definition center_term (i : Z) D R (a b : F) : F :=
  add (add (mul (add (sub one (entry R i 0)) (mul two (entry D i 0))) a)
           (mul (add (entry R i (i + 1)) (mul two (entry D i (i + 1)))) (mul a a)))
      (mul (add (entry R i (2 - i)) (mul two (entry D i (2 - i)))) (mul a b)).

Definition border_term (i : Z) D (a b : F) : F :=
  add (add (mul (entry D i 0) a) (mul (entry D i (i + 1)) (mul a a)))
      (mul (entry D i (2 - i)) (mul a b)).

(** [shift(v, +1)]: the last element moves to the front. *)
Definition shift_forward (v : list F) : list F :=
  match v with
  | [] => []
  | _ :: _ => last v zero :: removelast v
  end.

(** [shift(v, -1)]: the first element moves to the end. *)
Definition shift_backward (v : list F) : list F :=
  match v with
  | [] => []
  | x :: v' => v' ++ [x]
  end.

(** The residual of the specification:
    [center - shift(border, +1) - shift(border, -1)]. *)
Definition spec_residual (i : Z) A B D R : list F :=
  let center := np.zip_with (center_term i D R) A B in
  let border := np.zip_with (border_term i D) A B in
  np.zip_with sub (np.zip_with sub center (shift_forward border))
                  (shift_backward border).

(** The [center] and the [border] of [f] as functions of the two vectors. *)
Definition center_of (i : Z) A B D R : result (list F) :=
  A2 <- np.vmul A A ;; AB <- np.vmul A B ;; center i A A2 AB D R.

Definition border_of (i : Z) A B D : result (list F) :=
  A2 <- np.vmul A A ;; AB <- np.vmul A B ;; border i A A2 AB D.

(** The part of [center] that holds no diffusion coefficient. *)
Definition reaction_term (i : Z) R (a b : F) : F :=
  add (add (mul (sub one (entry R i 0)) a) (mul (entry R i (i + 1)) (mul a a)))
      (mul (entry R i (2 - i)) (mul a b)).

(** What [mu] and [nu] compute at one grid node. *)
Definition mu_term (i : Z) D (a b : F) : F :=
  add (add (mul (entry D i 0) one) (mul (mul two (entry D i (i + 1))) a))
      (mul (entry D i (2 - i)) b).

Definition nu_term (i : Z) D R (a b : F) : F :=
  add (add (mul (add (sub one (entry R i 0)) (mul two (entry D i 0))) one)
           (mul (mul two (add (entry R i (i + 1)) (mul two (entry D i (i + 1))))) a))
      (mul (add (entry R i (2 - i)) (mul two (entry D i (2 - i)))) b).

End Vocabulary.

(** ** Sample data, over the integers *)

Definition sample_D : list (list Z) := [[1; 2; 3]; [4; 5; 6]]%Z.
Definition sample_R : list (list Z) := [[7; 8; 9]; [10; 11; 12]]%Z.

(** A reaction matrix whose first row vanishes at [a = b = 2]. *)
Definition sample_R_equilibrium : list (list Z) := [[1; 1; -1]; [0; 0; 0]]%Z.

(** The same in binary64: the floats nearest to [0.1], [0.2] and [0.3], a
    diffusion matrix and a reaction matrix whose first row vanishes at
    [a = b = 0.1]. *)
Definition float_tenth : float := 0x1.999999999999ap-4%float.
Definition float_fifth : float := 0x1.999999999999ap-3%float.
Definition float_three_tenths : float := 0x1.3333333333333p-2%float.

Definition float_D : list (list float) :=
  [[float_tenth; float_fifth; float_three_tenths];
   [float_tenth; float_fifth; float_three_tenths]].

Definition float_R_equilibrium : list (list float) :=
  [[1; 1; -1]; [0; 0; 0]]%float.

(** [block_diags 0 [1; 2] sample_D sample_R] *)
Definition sample_block : list (list Z) := [[-6]; [-6]; [15; 30]; [-3]; [-3]]%Z.

(** ** Vocabulary of the further statements *)

Section MoreVocabulary.
Context {F : Type} `{Scalar F}.

(** The list that starts at position [k] of [v] and wraps around. *)
Definition rot (k : nat) (v : list F) : list F := skipn k v ++ firstn k v.

(** The sum of the entries of an array. *)
Definition vsum (v : list F) : F := fold_right add zero v.
End MoreVocabulary.

(** * Properties *)

(** ** Results *)

Lemma Ok_inj {T : Type} (a b : T) : Ok a = Ok b -> a = b.
Proof. congruence. Qed.

(** ** Indexing and slicing *)

Section SeqFacts.
Context {T : Type}.
Implicit Types (A X V : list T).

Lemma normalize_index_nat (n k : nat) :
  k < n -> seq.normalize_index n (Z.of_nat k) = Some k.
Proof.
  intros Hk. unfold seq.normalize_index.
  replace ((0 <=? Z.of_nat k) && (Z.of_nat k <? Z.of_nat n))%Z with true
    by (symmetry; apply andb_true_iff; split; [apply Z.leb_le | apply Z.ltb_lt]; lia).
  now rewrite Nat2Z.id.
Qed.

Lemma normalize_index_outside (n : nat) (i : Z) :
  (i < - Z.of_nat n \/ Z.of_nat n <= i)%Z -> seq.normalize_index n i = None.
Proof.
  intros Hi. unfold seq.normalize_index.
  destruct (Z.leb_spec 0 i), (Z.ltb_spec i (Z.of_nat n)),
    (Z.leb_spec (- Z.of_nat n) i), (Z.ltb_spec i 0); simpl; trivial; lia.
Qed.

Lemma item_nat A (k : nat) (x : T) :
  nth_error A k = Some x -> seq.item A (Z.of_nat k) = Ok x.
Proof.
  intros Hx. unfold seq.item.
  rewrite normalize_index_nat by (apply nth_error_Some; congruence).
  now rewrite Hx.
Qed.

Lemma item_outside A (i : Z) :
  (i < - Z.of_nat (length A) \/ Z.of_nat (length A) <= i)%Z ->
  seq.item A i = Raise IndexError.
Proof.
  intros Hi. unfold seq.item. now rewrite normalize_index_outside.
Qed.

Lemma removelast_length A : length (removelast A) = length A - 1.
Proof. rewrite removelast_firstn_len, length_firstn. lia. Qed.

Lemma nth_error_last A (d : T) :
  A <> [] -> nth_error A (length A - 1) = Some (last A d).
Proof.
  intros HA.
  transitivity (nth_error (removelast A ++ [last A d]) (length A - 1)).
  - now rewrite <- app_removelast_last.
  - assert (0 < length A) by (destruct A; simpl; [congruence | lia]).
    rewrite nth_error_app2; rewrite removelast_length; [| lia].
    now rewrite Nat.sub_diag.
Qed.

Lemma item_last A (d : T) :
  A <> [] -> seq.item A (-1) = Ok (last A d).
Proof.
  intros HA. unfold seq.item, seq.normalize_index.
  assert (Hn : 0 < length A) by (destruct A; simpl; [congruence | lia]).
  replace (0 <=? -1)%Z with false by reflexivity.
  replace (-1 <? 0)%Z with true by reflexivity.
  destruct (Z.leb_spec (- Z.of_nat (length A)) (-1)); [| lia].
  cbn [andb].
  replace (Z.to_nat (-1 + Z.of_nat (length A))) with (length A - 1) by lia.
  now rewrite (nth_error_last d HA).
Qed.

Lemma clip_nat (n k : nat) : seq.clip n (Z.of_nat k) = Nat.min n k.
Proof.
  unfold seq.clip. destruct (Z.ltb_spec (Z.of_nat k) 0); lia.
Qed.

(** [A[:k]] is the first [k] elements. *)
Lemma slice_to A (k : nat) : seq.slice A None (Some (Z.of_nat k)) = firstn k A.
Proof.
  unfold seq.slice, seq.slice_start, seq.slice_stop.
  rewrite clip_nat, Nat.sub_0_r. simpl skipn.
  destruct (Nat.le_ge_cases k (length A)).
  - now rewrite Nat.min_r.
  - rewrite Nat.min_l by assumption. now rewrite firstn_all, firstn_all2.
Qed.

(** [A[k:]] drops the first [k] elements. *)
Lemma slice_from A (k : nat) : seq.slice A (Some (Z.of_nat k)) None = skipn k A.
Proof.
  unfold seq.slice, seq.slice_start, seq.slice_stop.
  rewrite clip_nat.
  destruct (Nat.le_ge_cases k (length A)).
  - rewrite Nat.min_r by assumption.
    apply firstn_all2. rewrite length_skipn. lia.
  - rewrite Nat.min_l by assumption.
    now rewrite Nat.sub_diag, skipn_all, skipn_all2.
Qed.

(** [A[:-1]] drops the last element. *)
Lemma slice_to_minus_one A : seq.slice A None (Some (-1)%Z) = removelast A.
Proof.
  unfold seq.slice, seq.slice_start, seq.slice_stop, seq.clip.
  simpl skipn. rewrite Nat.sub_0_r, removelast_firstn_len.
  f_equal. destruct (Z.ltb_spec (-1) 0); lia.
Qed.

(** [X[:k] = V] with [V] as long as the slice. *)
Lemma set_slice_to X V (k : nat) :
  length V = Nat.min (length X) k ->
  seq.set_slice X None (Some (Z.of_nat k)) V = Ok (V ++ skipn (length V) X).
Proof.
  intros HV. unfold seq.set_slice, seq.slice_start, seq.slice_stop.
  rewrite clip_nat, Nat.sub_0_r, <- HV, Nat.eqb_refl. reflexivity.
Qed.

(** [X[k:] = V] with [V] as long as the slice. *)
Lemma set_slice_from X V (k : nat) :
  k <= length X -> length V = length X - k ->
  seq.set_slice X (Some (Z.of_nat k)) None V = Ok (firstn k X ++ V).
Proof.
  intros Hk HV. unfold seq.set_slice, seq.slice_start, seq.slice_stop.
  rewrite clip_nat, Nat.min_r by assumption.
  rewrite <- HV, Nat.eqb_refl.
  rewrite skipn_all2 by lia. now rewrite app_nil_r.
Qed.
End SeqFacts.

(** ** Vector packing *)

Section Packing.
Context {F : Type} `{Scalar F}.
Implicit Types (U V X : list F).

Lemma XtoUV_halves X :
  XtoUV X = Ok (firstn (length X / 2) X, skipn (length X / 2) X).
Proof.
  unfold XtoUV. change 2%Z with (Z.of_nat 2).
  rewrite <- Nat2Z.inj_div. now rewrite slice_to, slice_from.
Qed.

Lemma UVtoX_app U V : length U = length V -> UVtoX U V = Ok (U ++ V).
Proof.
  intros HUV. unfold UVtoX, np.zeros.
  replace (Z.to_nat (2 * Z.of_nat (length U))) with (length U + length U) by lia.
  rewrite set_slice_to by (rewrite repeat_length; lia).
  cbn [bind].
  rewrite repeat_app, skipn_app, repeat_length, skipn_all2, Nat.sub_diag
    by (rewrite repeat_length; lia).
  cbn [skipn app].
  rewrite set_slice_from by (rewrite length_app, repeat_length; lia).
  cbn [bind].
  rewrite firstn_app, Nat.sub_diag, firstn_all. cbn [firstn].
  now rewrite app_nil_r.
Qed.

Lemma Even_half_double (n : nat) : Nat.Even n -> n / 2 + n / 2 = n.
Proof.
  intros [m ->]. rewrite Nat.mul_comm, Nat.div_mul by discriminate. lia.
Qed.

Lemma Odd_half (n : nat) : Nat.Odd n -> n = n / 2 + n / 2 + 1.
Proof.
  intros [m ->].
  replace (2 * m + 1) with (1 + m * 2) at 2 3 by lia.
  rewrite Nat.div_add by discriminate. simpl. lia.
Qed.

(** C5. Packing and unpacking are inverse to each other: for [U] and [V] of
    the same length [K], [UVtoX U V] has length [2 * K], starts with [U] and
    ends with [V], and [XtoUV] gives [(U, V)] back; and a vector [X] of even
    length is rebuilt by [UVtoX] from the two halves [XtoUV] returns. *)
Theorem packing_round_trip U V X (K : nat) :
  length U = K -> length V = K -> Nat.Even (length X) ->
  (exists Y, UVtoX U V = Ok Y /\ length Y = 2 * K /\
             firstn K Y = U /\ skipn K Y = V /\ XtoUV Y = Ok (U, V)) /\
  (exists U' V', XtoUV X = Ok (U', V') /\ UVtoX U' V' = Ok X).
Proof.
  intros HU HV HX. split.
  - exists (U ++ V).
    assert (Hf : firstn K (U ++ V) = U)
      by (subst K; now rewrite firstn_app, Nat.sub_diag, firstn_all, app_nil_r).
    assert (Hs : skipn K (U ++ V) = V)
      by (subst K; now rewrite skipn_app, Nat.sub_diag, skipn_all).
    assert (Hl : length (U ++ V) = 2 * K) by (rewrite length_app; lia).
    repeat split; trivial.
    + apply UVtoX_app. congruence.
    + rewrite XtoUV_halves, Hl.
      rewrite Nat.mul_comm, Nat.div_mul by discriminate.
      now rewrite Hf, Hs.
  - exists (firstn (length X / 2) X), (skipn (length X / 2) X). split.
    + apply XtoUV_halves.
    + rewrite UVtoX_app, firstn_skipn; trivial.
      pose proof (Even_half_double HX) as E.
      pose proof (Nat.Div0.div_le_upper_bound (length X) 2 (length X)) as B.
      rewrite length_firstn, length_skipn. lia.
Qed.

(** C10. [XtoUV] returns on a vector of any length [n]: the pair of
    [X[0:n/2]] and [X[n/2:n]], whose concatenation is [X]; for odd [n] the
    halves have the unequal lengths [n/2] (rounded down) and [(n+1)/2]. *)
Theorem XtoUV_total X :
  exists U V, XtoUV X = Ok (U, V) /\
    U = firstn (length X / 2) X /\ V = skipn (length X / 2) X /\
    U ++ V = X /\
    (Nat.Odd (length X) ->
       length U = length X / 2 /\ length V = (length X + 1) / 2 /\
       length U <> length V).
Proof.
  exists (firstn (length X / 2) X), (skipn (length X / 2) X).
  split; [apply XtoUV_halves |].
  do 2 (split; [reflexivity |]).
  split; [apply firstn_skipn |].
  intros HX. pose proof (Odd_half HX) as E.
  assert (E' : (length X + 1) / 2 = length X / 2 + 1).
  { replace (length X + 1) with ((length X / 2 + 1) * 2) by lia.
    now rewrite Nat.div_mul by discriminate. }
  rewrite length_firstn, length_skipn. lia.
Qed.

(** C8, as the code has it. [XtoUV] has no guard on the length: on a vector
    of odd length it returns two halves whose concatenation is the vector,
    the second one element longer than the first. *)
Theorem XtoUV_odd_length_returns X :
  Nat.Odd (length X) ->
  exists U V, XtoUV X = Ok (U, V) /\ U ++ V = X /\ length V = length U + 1.
Proof.
  intros HX. exists (firstn (length X / 2) X), (skipn (length X / 2) X).
  repeat split; try apply XtoUV_halves; try apply firstn_skipn.
  pose proof (Odd_half HX) as E.
  rewrite length_firstn, length_skipn. lia.
Qed.
End Packing.

(** ** The constructor of [Population] *)

Section PopulationFacts.
Context {F : Type} `{Scalar F}.

(** C9. A freshly constructed population holds a trajectory of exactly two
    entries, both at time zero and both the packed initial condition
    [X0 = UVtoX (u0 Space) (v0 Space)]; the constructor returns whenever the
    two sampled vectors have the same length. *)
Theorem init_trajectory (Space : list F) (u0 v0 : list F -> list F)
    (D : list (list F)) :
  (length (u0 Space) = length (v0 Space) ->
   exists p, Population.__init__ Space u0 v0 D = Ok p) /\
  (forall p, Population.__init__ Space u0 v0 D = Ok p ->
   exists X0, UVtoX (u0 Space) (v0 Space) = Ok X0 /\
     Population.Xlist p = [X0; X0] /\ Population.Tlist p = [0; 0]%Z /\
     Population.Space p = Space /\ Population.D p = D).
Proof.
  unfold Population.__init__. split.
  - intros HL. rewrite (UVtoX_app _ _ HL). cbn [bind]. eauto.
  - intros p. destruct (UVtoX (u0 Space) (v0 Space)) as [X0 | e]; cbn [bind].
    + intros [= <-]. exists X0. repeat split.
    + discriminate.
Qed.
End PopulationFacts.

(** ** Coefficient matrices *)

Section Matrices.
Context {F : Type} `{Scalar F}.
Implicit Types (M D R : list (list F)) (A B : list F).

Lemma has_shape_2_3 M :
  has_shape M 2 3 = true ->
  exists a0 a1 a2 b0 b1 b2, M = [[a0; a1; a2]; [b0; b1; b2]].
Proof.
  unfold has_shape.
  destruct M as [| [| a0 [| a1 [| a2 [| ? ?]]]] [| [| b0 [| b1 [| b2 [| ? ?]]]] [| ? ?]]];
    try discriminate.
  intros _. now exists a0, a1, a2, b0, b1, b2.
Qed.

(** On a 2 x 3 matrix [M[i, j]] returns for a row [0] or [1] and a column
    [0], [1] or [2]. *)
Lemma item2_entry M (i j : Z) :
  has_shape M 2 3 = true -> (i = 0 \/ i = 1)%Z -> (0 <= j <= 2)%Z ->
  np.item2 M i j = Ok (entry M i j).
Proof.
  intros HM Hi Hj.
  destruct (has_shape_2_3 M HM) as (a0 & a1 & a2 & b0 & b1 & b2 & ->).
  assert (Hj' : (j = 0 \/ j = 1 \/ j = 2)%Z) by lia.
  destruct Hi as [-> | ->], Hj' as [-> | [-> | ->]]; reflexivity.
Qed.

(** On a 2 x 3 matrix [M[i, 2 - i]] raises for every row index other than
    [0] and [1]: the row is out of range, or, for [-1] and [-2], the column. *)
Lemma item2_cross_invalid M (i : Z) :
  has_shape M 2 3 = true -> i <> 0%Z -> i <> 1%Z ->
  np.item2 M i (2 - i) = Raise IndexError.
Proof.
  intros HM H0 H1.
  destruct (has_shape_2_3 M HM) as (a0 & a1 & a2 & b0 & b1 & b2 & ->).
  assert (Hi : (i < -2 \/ 2 <= i \/ i = -2 \/ i = -1)%Z) by lia.
  destruct Hi as [Hi | [Hi | [-> | ->]]]; try reflexivity;
    unfold np.item2; rewrite item_outside; trivial; simpl; lia.
Qed.

Lemma species_guard_fails (i : Z) :
  i <> 0%Z -> i <> 1%Z -> py_assert ((i =? 0)%Z || (i =? 1)%Z) = Raise AssertionError.
Proof.
  intros H0 H1.
  destruct (Z.eqb_spec i 0), (Z.eqb_spec i 1); try contradiction. reflexivity.
Qed.

Lemma species_guard_passes (i : Z) :
  (i = 0 \/ i = 1)%Z -> py_assert ((i =? 0)%Z || (i =? 1)%Z) = Ok tt.
Proof. now intros [-> | ->]. Qed.

(** C7. With a species index other than [0] and [1], [f], [mu] and [nu]
    raise [AssertionError]; [block_diags], which has no assertion, raises
    [IndexError] when it reads [D[i, 2 - i]] from the 2 x 3 matrix [D]. *)
Theorem invalid_species_index (i : Z) A B D R :
  i <> 0%Z -> i <> 1%Z ->
  f i A B D R = Raise AssertionError /\
  mu i A B D = Raise AssertionError /\
  nu i A B D R = Raise AssertionError /\
  (has_shape D 2 3 = true -> block_diags i A D R = Raise IndexError).
Proof.
  intros H0 H1.
  pose proof (species_guard_fails H0 H1) as G.
  unfold f, mu, nu, block_diags. rewrite G.
  repeat split. intros HD.
  now rewrite (item2_cross_invalid D HD H0 H1).
Qed.
End Matrices.

(** ** Elementwise operations and rotation *)

Section Arrays.
Context {F : Type} `{Scalar F}.
Implicit Types (A B : list F) (op : F -> F -> F).

Lemma zip_with_length op A B :
  length B = length A -> length (np.zip_with op A B) = length A.
Proof.
  revert B. induction A as [| a A IH]; intros [| b B]; simpl; try easy.
  intros [= E]. now rewrite IH.
Qed.

Lemma zip_with_repeat op (a b : F) (n : nat) :
  np.zip_with op (repeat a n) (repeat b n) = repeat (op a b) n.
Proof. induction n as [| n IH]; simpl; [| rewrite IH]; reflexivity. Qed.

(** Arrays of one length combine element by element. *)
Lemma broadcast_same_length op A B :
  length B = length A -> np.broadcast op A B = Ok (np.zip_with op A B).
Proof. intros E. unfold np.broadcast. now rewrite E, Nat.eqb_refl. Qed.

Lemma scale_length (c : F) A : length (np.scale c A) = length A.
Proof. apply length_map. Qed.

Lemma negative_nth A (p : nat) :
  p < length A -> nth p (np.negative A) zero = neg (nth p A zero).
Proof.
  intros Hp. unfold np.negative.
  rewrite (nth_indep _ zero (neg zero)) by now rewrite length_map.
  apply map_nth.
Qed.

(** [np.roll A 1] puts the last element in front. *)
Lemma roll_forward A (x : F) :
  np.roll (A ++ [x]) 1 = x :: A.
Proof.
  unfold np.roll. rewrite length_app. simpl length.
  destruct (length A + 1) as [| n] eqn:E; [lia |].
  replace (S n - Z.to_nat (1 mod Z.of_nat (S n))) with (if n =? 0 then 1 else n).
  - destruct n as [| n]; simpl Nat.eqb; cbv iota.
    + assert (A = []) by (destruct A; [trivial | simpl in E; lia]). now subst.
    + assert (EA : length A = S n) by lia.
      rewrite skipn_app, firstn_app, <- EA, skipn_all, firstn_all, Nat.sub_diag.
      simpl. now rewrite app_nil_r.
  - destruct n as [| n]; simpl Nat.eqb; cbv iota.
    + reflexivity.
    + rewrite Z.mod_1_l by lia. lia.
Qed.

(** [np.roll A (-1)] puts the first element at the end. *)
Lemma roll_backward A (x : F) :
  np.roll (x :: A) (-1) = A ++ [x].
Proof.
  unfold np.roll. simpl length. cbv beta iota zeta.
  replace (S (length A) - Z.to_nat (-1 mod Z.of_nat (S (length A)))) with 1.
  - reflexivity.
  - assert (E : (-1 mod Z.of_nat (S (length A)) = Z.of_nat (length A))%Z).
    { symmetry. apply (Z.mod_unique_pos _ _ (-1)); lia. }
    rewrite E. lia.
Qed.

Lemma roll_length A (s : Z) : length (np.roll A s) = length A.
Proof.
  unfold np.roll. destruct (length A) as [| n] eqn:E; [assumption |].
  rewrite length_app, length_skipn, length_firstn. lia.
Qed.

Lemma roll_repeat (a : F) (n : nat) (s : Z) : np.roll (repeat a n) s = repeat a n.
Proof.
  unfold np.roll. rewrite repeat_length. destruct n as [| n]; [reflexivity |].
  set (k := S n - Z.to_nat (s mod Z.of_nat (S n))).
  assert (Hk : k <= S n) by (unfold k; lia).
  rewrite <- (firstn_skipn k (repeat a (S n))) at 3.
  generalize (S n) Hk. clear. intros m Hm.
  replace m with (k + (m - k)) by lia.
  rewrite repeat_app, skipn_app, firstn_app, repeat_length, Nat.sub_diag.
  rewrite skipn_all2, firstn_all2 by (rewrite repeat_length; lia).
  simpl. rewrite !app_nil_r, <- !repeat_app. f_equal. lia.
Qed.
End Arrays.

(** ** The Jacobian blocks and their assembly *)

Section Jacobian.
Context {F : Type} `{Scalar F}.
Implicit Types (A : list F) (D R : list (list F)) (P Q S : list (list F)).

Lemma item_head {T : Type} (x : T) (l : list T) : seq.item (x :: l) 0 = Ok x.
Proof. now apply (item_nat (x :: l) 0). Qed.

Lemma nth_last_position {T : Type} (l : list T) (d : T) :
  nth (length l - 1) l d = last l d.
Proof.
  destruct l as [| x l]; [reflexivity |].
  apply nth_error_nth. apply nth_error_last. discriminate.
Qed.

(** What [block_diags] returns once its two coefficients are read. *)
Lemma block_diags_value (i : Z) A D R (dk rk : F) :
  np.item2 D i (2 - i) = Ok dk -> np.item2 R i (2 - i) = Ok rk -> A <> [] ->
  block_diags i A D R =
  Ok [ [neg (last (np.scale dk A) zero)];
       np.negative (skipn 1 (np.scale dk A));
       np.zip_with add (np.scale rk A) (np.scale two (np.scale dk A));
       np.negative (removelast (np.scale dk A));
       [neg (hd zero (np.scale dk A))] ].
Proof.
  intros HD HR HA. unfold block_diags. rewrite HD, HR. cbn [bind].
  assert (HDA : np.scale dk A <> [])
    by (destruct A; [congruence | discriminate]).
  rewrite (item_last zero HDA). cbn [bind]. unfold np.vadd.
  rewrite broadcast_same_length by now rewrite !scale_length.
  cbn [bind].
  change (Some 1%Z) with (Some (Z.of_nat 1)).
  rewrite slice_from, slice_to_minus_one.
  destruct (np.scale dk A) as [| x DA] eqn:E; [congruence |].
  now rewrite item_head.
Qed.

(** A block that [block_diags] returns has five parts, of lengths
    [1], [K - 1], [K], [K - 1], [1]. *)
Lemma block_diags_lengths (i : Z) A D R P :
  block_diags i A D R = Ok P ->
  exists c0 up mn lo c1, P = [c0; up; mn; lo; c1] /\
    length c0 = 1 /\ length up = length A - 1 /\ length mn = length A /\
    length lo = length A - 1 /\ length c1 = 1.
Proof.
  unfold block_diags.
  destruct (np.item2 D i (2 - i)) as [dk | ?] eqn:HD; [| discriminate].
  cbn [bind].
  destruct (seq.item (np.scale dk A) (-1)) as [x | ?] eqn:HL; [| discriminate].
  cbn [bind].
  destruct (np.item2 R i (2 - i)) as [rk | ?] eqn:HR; [| discriminate].
  cbn [bind].
  assert (HA : A <> []) by (intros ->; discriminate HL).
  intros HP.
  pose proof (block_diags_value i D R HD HR HA) as V. unfold block_diags in V.
  rewrite HD in V; cbn [bind] in V. rewrite HL in V; cbn [bind] in V.
  rewrite HR in V; cbn [bind] in V. rewrite V in HP.
  apply Ok_inj in HP. subst P.
  do 5 eexists. split; [reflexivity |].
  unfold np.negative.
  rewrite !length_map, length_skipn, removelast_length, zip_with_length,
    !scale_length by now rewrite !scale_length.
  repeat split.
Qed.

(** C4. For [i] in {0, 1} and [A] of length [K >= 2], [block_diags] returns
    five parts of lengths [1], [K-1], [K], [K-1], [1]; with
    [flux = D[i,2-i] * A], the first part is the single entry [-flux[K-1]],
    the last the single entry [-flux[0]], the middle one is
    [R[i,2-i] * A + 2 * flux], and the second and fourth hold the negated
    flux: entry [p] of the second is [-flux[p+1]], of the fourth [-flux[p]]. *)
Theorem block_diags_components (i : Z) A D R (K : nat) :
  (i = 0 \/ i = 1)%Z -> has_shape D 2 3 = true -> has_shape R 2 3 = true ->
  length A = K -> 2 <= K ->
  exists flux corner_tr upper main lower corner_bl,
    flux = np.scale (entry D i (2 - i)) A /\
    block_diags i A D R = Ok [corner_tr; upper; main; lower; corner_bl] /\
    (length corner_tr = 1 /\ length upper = K - 1 /\ length main = K /\
     length lower = K - 1 /\ length corner_bl = 1) /\
    main = np.zip_with add (np.scale (entry R i (2 - i)) A) (np.scale two flux) /\
    corner_tr = [neg (nth (K - 1) flux zero)] /\
    corner_bl = [neg (nth 0 flux zero)] /\
    (forall p, p < K - 1 -> nth p upper zero = neg (nth (p + 1) flux zero)) /\
    (forall p, p < K - 1 -> nth p lower zero = neg (nth p flux zero)).
Proof.
  intros Hi HD HR HK HK2.
  assert (HA : A <> []) by (intros ->; simpl in HK; lia).
  assert (Hc : (0 <= 2 - i <= 2)%Z) by lia.
  pose proof (block_diags_value i D R (item2_entry _ HD Hi Hc)
                (item2_entry _ HR Hi Hc) HA) as V.
  set (flux := np.scale (entry D i (2 - i)) A) in *.
  assert (HF : length flux = K) by (unfold flux; now rewrite scale_length).
  do 6 eexists. split; [reflexivity |]. split; [exact V |].
  split; [| split; [reflexivity |]; split; [| split; [| split]]].
  - unfold np.negative.
    rewrite !length_map, length_skipn, removelast_length, zip_with_length,
      !scale_length by (rewrite !scale_length; congruence).
    rewrite HF, HK. repeat split.
  - now rewrite <- HF, nth_last_position.
  - now destruct flux.
  - intros p Hp. rewrite negative_nth by (rewrite length_skipn; lia).
    now rewrite nth_skipn, Nat.add_comm.
  - intros p Hp. rewrite negative_nth by (rewrite removelast_length; lia).
    rewrite removelast_firstn_len, nth_firstn.
    destruct (Nat.ltb_spec p (pred (length flux))); [reflexivity | lia].
Qed.
Lemma is_block_parts (K : nat) P :
  is_block K P ->
  exists c0 up mn lo c1, P = [c0; up; mn; lo; c1] /\
    length c0 = 1 /\ length up = K - 1 /\ length mn = K /\
    length lo = K - 1 /\ length c1 = 1.
Proof.
  intros (i & A & D & R & <- & HP). exact (block_diags_lengths _ _ _ _ HP).
Qed.

(** C3, as the code has it. For [K >= 2] and four blocks that [block_diags]
    returns on vectors of length [K], [merge_diags] returns exactly 11
    bands, of lengths [1], [K-1], [K], [K+1], [2K-1], [2K], [2K-1], [K+1],
    [K], [K-1], [1]: the lengths of the diagonals of a [2K] x [2K] matrix at
    the offsets [2K-1], [K+1], [K], [K-1], [1], [0], [-1], [-(K-1)], [-K],
    [-(K+1)], [-(2K-1)]. *)
Theorem merge_diags_band_lengths (K : nat) P Q R S :
  2 <= K -> is_block K P -> is_block K Q -> is_block K R -> is_block K S ->
  exists bands, merge_diags P Q R S = Ok bands /\
    length bands = 11 /\ map (@length F) bands = band_lengths K.
Proof.
  intros HK HP HQ HR HS.
  destruct (is_block_parts HP) as (p0 & p1 & p2 & p3 & p4 & -> & P0 & P1 & P2 & P3 & P4).
  destruct (is_block_parts HQ) as (q0 & q1 & q2 & q3 & q4 & -> & Q0 & Q1 & Q2 & Q3 & Q4).
  destruct (is_block_parts HR) as (r0 & r1 & r2 & r3 & r4 & -> & R0 & R1 & R2 & R3 & R4).
  destruct (is_block_parts HS) as (s0 & s1 & s2 & s3 & s4 & -> & S0 & S1 & S2 & S3 & S4).
  eexists. split; [reflexivity |]. split; [reflexivity |].
  unfold band_lengths, np.concatenate. cbn [map concat].
  rewrite !length_app. cbn [length].
  rewrite P0, P1, P2, P3, P4, Q0, Q1, Q2, Q3, Q4, R0, R1, R2, R3, R4,
    S0, S1, S2, S3, S4.
  repeat (f_equal; try lia).
Qed.
End Jacobian.


(** ** The residual *)

Section Residual.
Context {F : Type} `{Scalar F}.
Implicit Types (A B : list F) (D R : list (list F)).

Lemma roll_shift_forward (v : list F) : np.roll v 1 = shift_forward v.
Proof.
  destruct v as [| x v] using rev_ind; [reflexivity |].
  rewrite roll_forward. unfold shift_forward.
  rewrite last_last, removelast_last. now destruct v.
Qed.

Lemma roll_shift_backward (v : list F) : np.roll v (-1) = shift_backward v.
Proof. destruct v as [| x v]; [reflexivity | apply roll_backward]. Qed.

Lemma shift_forward_length (v : list F) : length (shift_forward v) = length v.
Proof. rewrite <- roll_shift_forward. apply roll_length. Qed.

Lemma shift_backward_length (v : list F) : length (shift_backward v) = length v.
Proof. rewrite <- roll_shift_backward. apply roll_length. Qed.

(** A sum of three scaled arrays, element by element. *)
Lemma quadratic_zip (c0 cj ck : F) A B :
  length B = length A ->
  np.zip_with add
    (np.zip_with add (np.scale c0 A) (np.scale cj (np.zip_with mul A A)))
    (np.scale ck (np.zip_with mul A B)) =
  np.zip_with
    (fun a b => add (add (mul c0 a) (mul cj (mul a a))) (mul ck (mul a b))) A B.
Proof.
  revert B. induction A as [| a A IH]; intros [| b B]; simpl; try easy.
  intros [= E]. f_equal. now apply IH.
Qed.

Lemma center_value (i : Z) A B D R :
  (i = 0 \/ i = 1)%Z -> has_shape D 2 3 = true -> has_shape R 2 3 = true ->
  length B = length A ->
  center i A (np.zip_with mul A A) (np.zip_with mul A B) D R =
  Ok (np.zip_with (center_term i D R) A B).
Proof.
  intros Hi HD HR E. unfold center, np.vadd.
  rewrite !item2_entry by (trivial; lia). cbn [bind].
  rewrite broadcast_same_length
    by (rewrite !scale_length, zip_with_length; trivial).
  cbn [bind].
  rewrite broadcast_same_length
    by (rewrite !zip_with_length; rewrite ?scale_length, ?zip_with_length; trivial).
  now rewrite quadratic_zip.
Qed.

Lemma border_value (i : Z) A B D :
  (i = 0 \/ i = 1)%Z -> has_shape D 2 3 = true -> length B = length A ->
  border i A (np.zip_with mul A A) (np.zip_with mul A B) D =
  Ok (np.zip_with (border_term i D) A B).
Proof.
  intros Hi HD E. unfold border, np.vadd.
  rewrite !item2_entry by (trivial; lia). cbn [bind].
  rewrite broadcast_same_length
    by (rewrite !scale_length, zip_with_length; trivial).
  cbn [bind].
  rewrite broadcast_same_length
    by (rewrite !zip_with_length; rewrite ?scale_length, ?zip_with_length; trivial).
  now rewrite quadratic_zip.
Qed.

(** What [f] returns on valid arguments, with the rotations as [np.roll]
    computes them. *)
Lemma f_value (i : Z) A B D R :
  (i = 0 \/ i = 1)%Z -> has_shape D 2 3 = true -> has_shape R 2 3 = true ->
  length B = length A ->
  f i A B D R =
  Ok (np.zip_with sub
        (np.zip_with sub (np.zip_with (center_term i D R) A B)
                         (np.roll (np.zip_with (border_term i D) A B) 1))
        (np.roll (np.zip_with (border_term i D) A B) (-1))).
Proof.
  intros Hi HD HR E. unfold f, np.vmul, np.vsub.
  rewrite (species_guard_passes Hi). cbn [bind].
  rewrite (broadcast_same_length mul A A eq_refl). cbn [bind].
  rewrite (broadcast_same_length mul A B E). cbn [bind].
  rewrite center_value, border_value by trivial. cbn [bind].
  rewrite broadcast_same_length by now rewrite roll_length, !zip_with_length.
  cbn [bind].
  apply broadcast_same_length.
  rewrite roll_length, zip_with_length, zip_with_length; trivial;
    rewrite ?roll_length, ?zip_with_length; trivial.
Qed.

(** C1. For [i] in {0, 1}, 2 x 3 matrices [D] and [R] and vectors [A] and
    [B] of one length, [f] returns
    [center - shift(border, +1) - shift(border, -1)], where element by
    element [center] is [(1 - R[i,0] + 2 D[i,0]) A + (R[i,j] + 2 D[i,j]) A^2
    + (R[i,k] + 2 D[i,k]) A B] and [border] is
    [D[i,0] A + D[i,j] A^2 + D[i,k] A B], with [j = i + 1] and [k = 2 - i];
    [shift(v, +1)] moves the last element to the front and [shift(v, -1)]
    the first element to the end. *)
Theorem f_residual (i : Z) A B D R :
  (i = 0 \/ i = 1)%Z -> has_shape D 2 3 = true -> has_shape R 2 3 = true ->
  length A = length B ->
  f i A B D R = Ok (spec_residual i A B D R).
Proof.
  intros Hi HD HR E. symmetry in E. unfold f, np.vmul, np.vsub.
  rewrite (species_guard_passes Hi). cbn [bind].
  rewrite (broadcast_same_length mul A A eq_refl). cbn [bind].
  rewrite (broadcast_same_length mul A B E). cbn [bind].
  rewrite center_value, border_value by trivial. cbn [bind].
  rewrite roll_shift_forward, roll_shift_backward.
  rewrite broadcast_same_length
    by now rewrite shift_forward_length, !zip_with_length.
  cbn [bind].
  rewrite broadcast_same_length
    by now rewrite shift_backward_length, !zip_with_length;
           rewrite ?shift_forward_length, ?zip_with_length.
  reflexivity.
Qed.
End Residual.

(** ** Algebraic identities, for exact scalars *)

Section Exact.
Context {F : Type} `{ExactScalar F}.
Implicit Types (A B : list F) (D R : list (list F)).

Add Ring scalar_ring_tactic : scalar_ring.

Lemma scale_ones (c : F) (n : nat) : np.scale c (np.ones n) = repeat (mul c one) n.
Proof. apply map_repeat. Qed.

Lemma shift_forward_repeat (x : F) (n : nat) :
  shift_forward (repeat x n) = repeat x n.
Proof. rewrite <- roll_shift_forward. apply roll_repeat. Qed.

Lemma shift_backward_repeat (x : F) (n : nat) :
  shift_backward (repeat x n) = repeat x n.
Proof. rewrite <- roll_shift_backward. apply roll_repeat. Qed.

Lemma center_minus_borders (i : Z) D R (a b : F) :
  sub (sub (center_term i D R a b) (border_term i D a b)) (border_term i D a b)
  = reaction_term i R a b.
Proof. unfold center_term, border_term, reaction_term, two. ring. Qed.

(** C6, for exact scalars. In exact arithmetic, at a uniform state
    [A = a * ones(K)], [B = b * ones(K)] whose reaction part
    [(1 - R[i,0]) a + R[i,i+1] a^2 + R[i,2-i] a b] is zero, [f] returns the
    zero vector of length [K], for [i] in {0, 1} and [K >= 1]. *)
Theorem residual_at_equilibrium (i : Z) D R (a b : F) (K : nat) :
  (i = 0 \/ i = 1)%Z -> has_shape D 2 3 = true -> has_shape R 2 3 = true ->
  1 <= K ->
  add (add (mul (sub one (entry R i 0)) a) (mul (entry R i (i + 1)) (mul a a)))
      (mul (entry R i (2 - i)) (mul a b)) = zero ->
  f i (np.scale a (np.ones K)) (np.scale b (np.ones K)) D R = Ok (np.zeros K).
Proof.
  intros Hi HD HR _ Heq.
  rewrite f_value by (trivial; now rewrite !scale_length).
  f_equal. rewrite !scale_ones, !zip_with_repeat, !roll_repeat, !zip_with_repeat.
  unfold np.zeros. f_equal.
  rewrite center_minus_borders. unfold reaction_term.
  rewrite <- Heq. ring.
Qed.

Lemma linear_zip (c0 c1 c2 : F) A B :
  length B = length A ->
  np.zip_with add
    (np.zip_with add (repeat c0 (length A)) (np.scale c1 A)) (np.scale c2 B) =
  np.zip_with (fun a b => add (add c0 (mul c1 a)) (mul c2 b)) A B.
Proof.
  revert B. induction A as [| a A IH]; intros [| b B]; simpl; try easy.
  intros [= E]. f_equal. now apply IH.
Qed.

Lemma center_of_value (i : Z) A B D R :
  (i = 0 \/ i = 1)%Z -> has_shape D 2 3 = true -> has_shape R 2 3 = true ->
  length B = length A ->
  center_of i A B D R = Ok (np.zip_with (center_term i D R) A B).
Proof.
  intros Hi HD HR E. unfold center_of, np.vmul.
  rewrite (broadcast_same_length mul A A eq_refl). cbn [bind].
  rewrite (broadcast_same_length mul A B E). cbn [bind].
  now apply center_value.
Qed.

Lemma border_of_value (i : Z) A B D :
  (i = 0 \/ i = 1)%Z -> has_shape D 2 3 = true -> length B = length A ->
  border_of i A B D = Ok (np.zip_with (border_term i D) A B).
Proof.
  intros Hi HD E. unfold border_of, np.vmul.
  rewrite (broadcast_same_length mul A A eq_refl). cbn [bind].
  rewrite (broadcast_same_length mul A B E). cbn [bind].
  now apply border_value.
Qed.

Lemma mu_value (i : Z) A B D :
  (i = 0 \/ i = 1)%Z -> has_shape D 2 3 = true -> length B = length A ->
  mu i A B D = Ok (np.zip_with (mu_term i D) A B).
Proof.
  intros Hi HD E. unfold mu, np.vadd.
  rewrite (species_guard_passes Hi). cbn [bind].
  rewrite !item2_entry by (trivial; lia). cbn [bind].
  rewrite scale_ones.
  rewrite broadcast_same_length by now rewrite scale_length, repeat_length.
  cbn [bind].
  rewrite broadcast_same_length
    by (rewrite zip_with_length; rewrite ?scale_length, ?repeat_length; trivial).
  now rewrite linear_zip.
Qed.

Lemma nu_value (i : Z) A B D R :
  (i = 0 \/ i = 1)%Z -> has_shape D 2 3 = true -> has_shape R 2 3 = true ->
  length B = length A ->
  nu i A B D R = Ok (np.zip_with (nu_term i D R) A B).
Proof.
  intros Hi HD HR E. unfold nu, np.vadd.
  rewrite (species_guard_passes Hi). cbn [bind].
  rewrite !item2_entry by (trivial; lia). cbn [bind].
  rewrite scale_ones.
  rewrite broadcast_same_length by now rewrite scale_length, repeat_length.
  cbn [bind].
  rewrite broadcast_same_length
    by (rewrite zip_with_length; rewrite ?scale_length, ?repeat_length; trivial).
  now rewrite linear_zip.
Qed.

(** The expansion of [center] and of [border] in the first vector, element
    by element. *)
Lemma center_expansion (i : Z) D R A B Hs :
  length B = length A -> length Hs = length A ->
  np.zip_with sub (np.zip_with (center_term i D R) (np.zip_with add A Hs) B)
                  (np.zip_with (center_term i D R) A B) =
  np.zip_with add (np.zip_with mul (np.zip_with (nu_term i D R) A B) Hs)
    (np.scale (add (entry R i (i + 1)) (mul two (entry D i (i + 1))))
              (np.zip_with mul Hs Hs)).
Proof.
  revert B Hs.
  induction A as [| a A IH]; intros [| b B] [| h Hs]; simpl; try easy.
  intros [= EB] [= EH]. f_equal; [| now apply IH].
  unfold center_term, nu_term, two. ring.
Qed.

Lemma border_expansion (i : Z) D A B Hs :
  length B = length A -> length Hs = length A ->
  np.zip_with sub (np.zip_with (border_term i D) (np.zip_with add A Hs) B)
                  (np.zip_with (border_term i D) A B) =
  np.zip_with add (np.zip_with mul (np.zip_with (mu_term i D) A B) Hs)
    (np.scale (entry D i (i + 1)) (np.zip_with mul Hs Hs)).
Proof.
  revert B Hs.
  induction A as [| a A IH]; intros [| b B] [| h Hs]; simpl; try easy.
  intros [= EB] [= EH]. f_equal; [| now apply IH].
  unfold border_term, mu_term, two. ring.
Qed.

(** C2. [mu] and [nu] are the derivatives of the [border] and the [center]
    of [f] in the own-species concentration, exactly: for [i] in {0, 1} and
    vectors [A], [B], [Hs] of one length, as arrays
    [center(A + Hs, B) - center(A, B) = nu(i,A,B,D,R) * Hs
       + (R[i,i+1] + 2 D[i,i+1]) * (Hs * Hs)] and
    [border(A + Hs, B) - border(A, B) = mu(i,A,B,D) * Hs
       + D[i,i+1] * (Hs * Hs)];
    arrays of one element give the identities for scalars [a], [b], [h]. *)
Theorem derivatives_consistent (i : Z) A B Hs D R :
  (i = 0 \/ i = 1)%Z -> has_shape D 2 3 = true -> has_shape R 2 3 = true ->
  length B = length A -> length Hs = length A ->
  exists A' Cn' Cn N Bd' Bd M Lc Lb,
    np.vadd A Hs = Ok A' /\
    center_of i A' B D R = Ok Cn' /\ center_of i A B D R = Ok Cn /\
    nu i A B D R = Ok N /\
    border_of i A' B D = Ok Bd' /\ border_of i A B D = Ok Bd /\
    mu i A B D = Ok M /\
    np.vsub Cn' Cn = Ok Lc /\
    (NH <- np.vmul N Hs ;; HH <- np.vmul Hs Hs ;;
     np.vadd NH (np.scale (add (entry R i (i + 1)) (mul two (entry D i (i + 1)))) HH))
    = Ok Lc /\
    np.vsub Bd' Bd = Ok Lb /\
    (MH <- np.vmul M Hs ;; HH <- np.vmul Hs Hs ;;
     np.vadd MH (np.scale (entry D i (i + 1)) HH))
    = Ok Lb.
Proof.
  intros Hi HD HR EB EH.
  assert (EA' : length B = length (np.zip_with add A Hs))
    by now rewrite zip_with_length.
  exists (np.zip_with add A Hs),
    (np.zip_with (center_term i D R) (np.zip_with add A Hs) B),
    (np.zip_with (center_term i D R) A B),
    (np.zip_with (nu_term i D R) A B),
    (np.zip_with (border_term i D) (np.zip_with add A Hs) B),
    (np.zip_with (border_term i D) A B),
    (np.zip_with (mu_term i D) A B).
  do 2 eexists.
  split; [now apply broadcast_same_length |].
  split; [now apply center_of_value |].
  split; [now apply center_of_value |].
  split; [now apply nu_value |].
  split; [now apply border_of_value |].
  split; [now apply border_of_value |].
  split; [now apply mu_value |].
  unfold np.vsub, np.vmul, np.vadd.
  rewrite !(broadcast_same_length sub)
    by (rewrite !zip_with_length; trivial; now rewrite zip_with_length).
  rewrite !(broadcast_same_length mul)
    by (rewrite ?zip_with_length; trivial).
  cbn [bind].
  rewrite !(broadcast_same_length add)
    by (rewrite scale_length, !zip_with_length; trivial;
        now rewrite zip_with_length).
  split; [reflexivity |]. split; [now rewrite center_expansion |].
  split; [reflexivity |]. now rewrite border_expansion.
Qed.
End Exact.

(** ** The statements at the sample data *)

Lemma f_residual_witness :
  f 1 [1; 2; 3]%Z [1; 1; 1]%Z sample_D sample_R
  = Ok (spec_residual 1 [1; 2; 3]%Z [1; 1; 1]%Z sample_D sample_R) /\
  spec_residual 1 [1; 2; 3]%Z [1; 1; 1]%Z sample_D sample_R = [-79; 40; 219]%Z.
Proof.
  split.
  - apply f_residual; [right; reflexivity | reflexivity | reflexivity | reflexivity].
  - reflexivity.
Defined.

Lemma derivatives_consistent_witness :
  exists A' Cn' Cn N Bd' Bd M Lc Lb,
    np.vadd [1; 2]%Z [5; 6]%Z = Ok A' /\
    center_of 0 A' [3; 4]%Z sample_D sample_R = Ok Cn' /\
    center_of 0 [1; 2]%Z [3; 4]%Z sample_D sample_R = Ok Cn /\
    nu 0 [1; 2]%Z [3; 4]%Z sample_D sample_R = Ok N /\
    border_of 0 A' [3; 4]%Z sample_D = Ok Bd' /\
    border_of 0 [1; 2]%Z [3; 4]%Z sample_D = Ok Bd /\
    mu 0 [1; 2]%Z [3; 4]%Z sample_D = Ok M /\
    np.vsub Cn' Cn = Ok Lc /\
    (NH <- np.vmul N [5; 6]%Z ;; HH <- np.vmul [5; 6]%Z [5; 6]%Z ;;
     np.vadd NH (np.scale (add (entry sample_R 0 (0 + 1))
                               (mul two (entry sample_D 0 (0 + 1)))) HH))
    = Ok Lc /\
    np.vsub Bd' Bd = Ok Lb /\
    (MH <- np.vmul M [5; 6]%Z ;; HH <- np.vmul [5; 6]%Z [5; 6]%Z ;;
     np.vadd MH (np.scale (entry sample_D 0 (0 + 1)) HH))
    = Ok Lb.
Proof.
  apply (derivatives_consistent (i := 0) [1; 2]%Z [3; 4]%Z [5; 6]%Z sample_D sample_R);
    [left; reflexivity | reflexivity | reflexivity | reflexivity | reflexivity].
Defined.

Lemma merge_diags_band_lengths_witness :
  is_block 2 sample_block /\
  exists bands,
    merge_diags sample_block sample_block sample_block sample_block = Ok bands /\
    length bands = 11 /\ map (@length Z) bands = band_lengths 2.
Proof.
  assert (HB : is_block 2 sample_block)
    by (exists 0%Z, [1; 2]%Z, sample_D, sample_R; split; reflexivity).
  split; [exact HB |].
  apply (merge_diags_band_lengths (K := 2)); [apply le_n | exact HB ..].
Defined.

(** C3, as the specification words it, fails: on four copies of
    [sample_block], built from a vector of length [2], the bands have the
    lengths [1; 1; 2; 3; 3; 4; 3; 3; 2; 1; 1], not
    [2; 2; 2; 1; 1; 0; 1; 1; 2; 2; 2]. *)
Lemma merge_diags_listed_lengths_fail :
  ~ (forall (K : nat) (P Q R S : list (list Z)),
       2 <= K -> is_block K P -> is_block K Q -> is_block K R -> is_block K S ->
       exists bands, merge_diags P Q R S = Ok bands /\
         length bands = 11 /\ map (@length Z) bands = listed_band_lengths K).
Proof.
  intros Hall.
  assert (HB : is_block 2 sample_block)
    by (exists 0%Z, [1; 2]%Z, sample_D, sample_R; split; reflexivity).
  destruct (Hall 2 _ _ _ _ (le_n 2) HB HB HB HB) as (bands & Hm & _ & Hl).
  apply Ok_inj in Hm. subst bands. discriminate Hl.
Qed.

Lemma block_diags_components_witness :
  exists flux corner_tr upper main lower corner_bl,
    flux = np.scale (entry sample_D 0 (2 - 0)) [1; 2]%Z /\
    block_diags 0 [1; 2]%Z sample_D sample_R
    = Ok [corner_tr; upper; main; lower; corner_bl] /\
    (length corner_tr = 1 /\ length upper = 2 - 1 /\ length main = 2 /\
     length lower = 2 - 1 /\ length corner_bl = 1) /\
    main = np.zip_with add (np.scale (entry sample_R 0 (2 - 0)) [1; 2]%Z)
                           (np.scale two flux) /\
    corner_tr = [neg (nth (2 - 1) flux zero)] /\
    corner_bl = [neg (nth 0 flux zero)] /\
    (forall p, p < 2 - 1 -> nth p upper zero = neg (nth (p + 1) flux zero)) /\
    (forall p, p < 2 - 1 -> nth p lower zero = neg (nth p flux zero)).
Proof.
  apply (block_diags_components (i := 0) [1; 2]%Z sample_D sample_R (K := 2));
    [left; reflexivity | reflexivity | reflexivity | reflexivity | apply le_n].
Defined.

Lemma packing_round_trip_witness :
  (exists Y, UVtoX [1; 2]%Z [3; 4]%Z = Ok Y /\ length Y = 2 * 2 /\
             firstn 2 Y = [1; 2]%Z /\ skipn 2 Y = [3; 4]%Z /\
             XtoUV Y = Ok ([1; 2]%Z, [3; 4]%Z)) /\
  (exists U' V', XtoUV [5; 6; 7; 8]%Z = Ok (U', V') /\
                 UVtoX U' V' = Ok [5; 6; 7; 8]%Z).
Proof.
  apply packing_round_trip; [reflexivity | reflexivity | exists 2; reflexivity].
Defined.

Lemma residual_at_equilibrium_witness :
  f 0 (np.scale 2%Z (np.ones 3)) (np.scale 2%Z (np.ones 3))
    sample_D sample_R_equilibrium
  = Ok (np.zeros 3).
Proof.
  apply residual_at_equilibrium;
    [left; reflexivity | reflexivity | reflexivity | apply le_S, le_S, le_n
    | reflexivity].
Defined.

(** C6, as the specification words it, fails in the arithmetic of float64
    arrays: at [a = b = 0.1] the reaction part of the first species is
    exactly zero under [float_R_equilibrium], yet on the uniform vectors of
    three nodes [f] returns entries that rounding has left different from
    zero. *)
Lemma residual_at_equilibrium_fails_in_floats :
  has_shape float_D 2 3 = true /\
  has_shape float_R_equilibrium 2 3 = true /\
  add (add (mul (sub one (entry float_R_equilibrium 0 0)) float_tenth)
           (mul (entry float_R_equilibrium 0 (0 + 1))
                (mul float_tenth float_tenth)))
      (mul (entry float_R_equilibrium 0 (2 - 0)) (mul float_tenth float_tenth))
  = zero /\
  f 0 (np.scale float_tenth (np.ones 3)) (np.scale float_tenth (np.ones 3))
    float_D float_R_equilibrium
  <> Ok (np.zeros 3).
Proof.
  split; [reflexivity |]. split; [reflexivity |]. split; [vm_compute; reflexivity |].
  intros E.
  apply (f_equal (fun r => match r with
                           | Ok (x :: _) => PrimFloat.is_zero x
                           | _ => true
                           end)) in E.
  vm_compute in E. discriminate E.
Qed.

Lemma invalid_species_index_witness :
  f (-1) [1; 2]%Z [3; 4]%Z sample_D sample_R = Raise AssertionError /\
  mu (-1) [1; 2]%Z [3; 4]%Z sample_D = Raise AssertionError /\
  nu (-1) [1; 2]%Z [3; 4]%Z sample_D sample_R = Raise AssertionError /\
  block_diags (-1) [1; 2]%Z sample_D sample_R = Raise IndexError.
Proof.
  assert (H0 : (-1 <> 0)%Z) by discriminate.
  assert (H1 : (-1 <> 1)%Z) by discriminate.
  destruct (invalid_species_index [1; 2]%Z [3; 4]%Z sample_D sample_R H0 H1)
    as (Hf & Hmu & Hnu & Hb).
  split; [exact Hf |]. split; [exact Hmu |]. split; [exact Hnu |].
  apply Hb. reflexivity.
Defined.

Lemma XtoUV_odd_length_returns_witness :
  exists U V, XtoUV [7; 8; 9]%Z = Ok (U, V) /\ U ++ V = [7; 8; 9]%Z /\
              length V = length U + 1.
Proof.
  apply XtoUV_odd_length_returns. exists 1. reflexivity.
Defined.

(** C8, as the specification words it, fails: [XtoUV] returns on the
    one-element vector [[7]]. *)
Lemma XtoUV_odd_length_not_rejected :
  ~ (forall X : list Z, Nat.Odd (length X) -> exists e, XtoUV X = Raise e).
Proof.
  intros Hall. destruct (Hall [7%Z]) as [e He].
  - exists 0. reflexivity.
  - discriminate He.
Qed.

Lemma init_trajectory_witness :
  exists p,
    Population.__init__ [0; 1; 2]%Z (map Z.succ) (map Z.double) sample_D = Ok p /\
    Population.Xlist p = [[1; 2; 3; 0; 2; 4]; [1; 2; 3; 0; 2; 4]]%Z /\
    Population.Tlist p = [0; 0]%Z.
Proof.
  destruct (init_trajectory [0; 1; 2]%Z (map Z.succ) (map Z.double) sample_D)
    as [Hret Hval].
  destruct (Hret eq_refl) as [p Hp]. exists p. split; [exact Hp |].
  destruct (Hval p Hp) as (X0 & HX & HXl & HTl & _).
  apply Ok_inj in HX. subst X0. split; assumption.
Defined.

(** * Further properties *)

(** ** More on elementwise operations and rotation *)

Section MoreArrays.
Context {F : Type} `{Scalar F}.
Implicit Types (A B v : list F) (op : F -> F -> F).

Lemma zip_with_length_min op A B :
  length (np.zip_with op A B) = Nat.min (length A) (length B).
Proof.
  revert B. induction A as [| a A IH]; intros [| b B]; simpl; trivial.
  now rewrite IH.
Qed.

Lemma zip_with_nth op A B (p : nat) (d : F) :
  p < length A -> p < length B ->
  nth p (np.zip_with op A B) d = op (nth p A d) (nth p B d).
Proof.
  revert B p. induction A as [| a A IH]; intros [| b B] [| p]; simpl; try lia; trivial.
  intros HA HB. apply IH; lia.
Qed.

Lemma zip_with_app op A1 A2 B1 B2 :
  length A1 = length B1 ->
  np.zip_with op (A1 ++ A2) (B1 ++ B2)
  = np.zip_with op A1 B1 ++ np.zip_with op A2 B2.
Proof.
  revert B1. induction A1 as [| a A1 IH]; intros [| b B1]; simpl; try easy.
  intros [= E]. now rewrite IH.
Qed.

Lemma zip_with_firstn op A B (k : nat) :
  firstn k (np.zip_with op A B) = np.zip_with op (firstn k A) (firstn k B).
Proof.
  revert A B. induction k as [| k IH]; intros [| a A] [| b B]; simpl; trivial.
  now rewrite IH.
Qed.

Lemma zip_with_skipn op A B (k : nat) :
  length A = length B ->
  skipn k (np.zip_with op A B) = np.zip_with op (skipn k A) (skipn k B).
Proof.
  revert A B. induction k as [| k IH]; intros [| a A] [| b B]; simpl; try easy.
  intros [= E]. now apply IH.
Qed.

Lemma rot_length (k : nat) v : length (rot k v) = length v.
Proof. unfold rot. rewrite length_app, length_skipn, length_firstn. lia. Qed.

Lemma rot_zip_with op A B (k : nat) :
  length A = length B ->
  rot k (np.zip_with op A B) = np.zip_with op (rot k A) (rot k B).
Proof.
  intros E. unfold rot.
  rewrite zip_with_app by (rewrite !length_skipn; lia).
  now rewrite zip_with_skipn, zip_with_firstn.
Qed.

(** [np.roll] starts the array at position [n - s mod n]. *)
Lemma roll_rot v (s : Z) :
  np.roll v s = rot (length v - Z.to_nat (s mod Z.of_nat (length v))) v.
Proof.
  unfold np.roll. destruct v as [| x v]; reflexivity.
Qed.

Lemma roll_zip_with op A B (s : Z) :
  length A = length B ->
  np.roll (np.zip_with op A B) s = np.zip_with op (np.roll A s) (np.roll B s).
Proof.
  intros E. rewrite !roll_rot, zip_with_length_min, <- E, Nat.min_id.
  now apply rot_zip_with.
Qed.

Lemma firstn_add (j k : nat) v :
  firstn (k + j) v = firstn k v ++ firstn j (skipn k v).
Proof.
  revert v. induction k as [| k IH]; intros [| x v]; simpl; trivial.
  - now rewrite firstn_nil.
  - now rewrite IH.
Qed.

Lemma skipn_firstn_skipn (m k : nat) v :
  m <= k -> k <= length v -> skipn m (firstn k v) ++ skipn k v = skipn m v.
Proof.
  intros Hm Hk. rewrite <- (firstn_skipn k v) at 3.
  rewrite skipn_app, length_firstn, Nat.min_l by assumption.
  replace (m - k) with 0 by lia. reflexivity.
Qed.

(** Two rotations make one, whose start wraps around the length. *)
Lemma rot_rot (j k : nat) v :
  j <= length v -> k <= length v ->
  rot j (rot k v) =
  if j + k <=? length v then rot (j + k) v else rot (j + k - length v) v.
Proof.
  intros Hj Hk. unfold rot.
  rewrite skipn_app, firstn_app, length_skipn.
  destruct (Nat.leb_spec (j + k) (length v)) as [Hjk | Hjk].
  - replace (j - (length v - k)) with 0 by lia. cbn [skipn firstn].
    rewrite skipn_skipn, app_nil_r, <- app_assoc. f_equal.
    now rewrite (Nat.add_comm j k), firstn_add.
  - rewrite (skipn_all2 (skipn k v)) by (rewrite length_skipn; lia).
    rewrite (firstn_all2 (skipn k v)) by (rewrite length_skipn; lia).
    replace (j - (length v - k)) with (j + k - length v) by lia.
    rewrite firstn_firstn, Nat.min_l by lia. cbn [app].
    rewrite app_assoc. f_equal.
    apply skipn_firstn_skipn; lia.
Qed.

Lemma rot_rot_comm (j k : nat) v :
  j <= length v -> k <= length v -> rot j (rot k v) = rot k (rot j v).
Proof.
  intros Hj Hk. rewrite !rot_rot by assumption.
  now rewrite (Nat.add_comm k j).
Qed.

(** Rotations by [np.roll] can be done in either order. *)
Lemma roll_roll_comm v (s t : Z) :
  np.roll (np.roll v s) t = np.roll (np.roll v t) s.
Proof.
  rewrite !roll_rot, !rot_length. apply rot_rot_comm; lia.
Qed.
End MoreArrays.

(** ** More on the residual *)

Ltac vlen :=
  repeat first
    [ rewrite zip_with_length_min in * | rewrite roll_length in *
    | rewrite scale_length in * | rewrite length_map in *
    | rewrite repeat_length in * ];
  lia.

Section MoreResidual.
Context {F : Type} `{Scalar F}.
Implicit Types (A B v : list F) (D R : list (list F)).

Lemma roll_forward_nth v (p : nat) (d : F) :
  p < length v ->
  nth p (np.roll v 1) d = nth ((p + length v - 1) mod length v) v d.
Proof.
  destruct v as [| x l _] using rev_ind; [simpl; lia |].
  rewrite roll_forward, length_app. cbn [length]. intros Hp.
  destruct p as [| q].
  - rewrite Nat.mod_small by lia. cbn [nth].
    replace (0 + (length l + 1) - 1) with (length l) by lia.
    now rewrite nth_middle.
  - replace (S q + (length l + 1) - 1) with (q + 1 * (length l + 1)) by lia.
    rewrite Nat.Div0.mod_add, Nat.mod_small by lia.
    cbn [nth]. now rewrite app_nth1 by lia.
Qed.

Lemma roll_backward_nth v (p : nat) (d : F) :
  p < length v ->
  nth p (np.roll v (-1)) d = nth ((p + 1) mod length v) v d.
Proof.
  destruct v as [| x l]; [simpl; lia |].
  rewrite roll_backward. cbn [length]. intros Hp.
  destruct (Nat.eq_dec p (length l)) as [-> | Hne].
  - rewrite nth_middle.
    replace (length l + 1) with (S (length l)) by lia.
    now rewrite Nat.Div0.mod_same.
  - rewrite Nat.mod_small, app_nth1 by lia.
    now rewrite Nat.add_1_r.
Qed.

(** X1. The residual is invariant under translation of the periodic grid:
    rotating both concentration vectors by [s] positions rotates the result
    of [f] by [s] positions. *)
Theorem f_translation_invariant (i : Z) A B D R (s : Z) :
  (i = 0 \/ i = 1)%Z -> has_shape D 2 3 = true -> has_shape R 2 3 = true ->
  length B = length A ->
  exists Y, f i A B D R = Ok Y /\
            f i (np.roll A s) (np.roll B s) D R = Ok (np.roll Y s).
Proof.
  intros Hi HD HR E. eexists. split; [now apply f_value |].
  rewrite f_value by (trivial; now rewrite !roll_length).
  f_equal.
  rewrite <- !(roll_zip_with _ A B s) by congruence.
  rewrite (roll_roll_comm _ s 1), (roll_roll_comm _ s (-1)).
  rewrite <- !roll_zip_with by vlen.
  reflexivity.
Qed.

(** X2. [f] is a circular three-point stencil: it returns a vector as long
    as its arguments, whose entry at node [p] is the [center] term at [p]
    minus the [border] terms at the two neighbours [(p - 1) mod K] and
    [(p + 1) mod K]. *)
Theorem f_three_point_stencil (i : Z) A B D R :
  (i = 0 \/ i = 1)%Z -> has_shape D 2 3 = true -> has_shape R 2 3 = true ->
  length B = length A ->
  exists Y, f i A B D R = Ok Y /\ length Y = length A /\
    forall p, p < length A ->
      nth p Y zero =
      sub (sub (center_term i D R (nth p A zero) (nth p B zero))
               (border_term i D
                  (nth ((p + length A - 1) mod length A) A zero)
                  (nth ((p + length A - 1) mod length A) B zero)))
          (border_term i D
             (nth ((p + 1) mod length A) A zero)
             (nth ((p + 1) mod length A) B zero)).
Proof.
  intros Hi HD HR E. eexists. split; [now apply f_value |].
  split; [vlen |]. intros p Hp.
  set (l := (p + length A - 1) mod length A).
  set (r := (p + 1) mod length A).
  assert (Hl : l < length A) by (apply Nat.mod_upper_bound; lia).
  assert (Hr : r < length A) by (apply Nat.mod_upper_bound; lia).
  assert (Ebt : length (np.zip_with (border_term i D) A B) = length A) by vlen.
  rewrite !zip_with_nth by vlen.
  rewrite roll_forward_nth, roll_backward_nth by vlen.
  rewrite Ebt. fold l r.
  now rewrite !zip_with_nth by vlen.
Qed.
End MoreResidual.

(** ** Shapes that do not fit *)

Section Mismatch.
Context {F : Type} `{Scalar F}.
Implicit Types (A B U V : list F) (D R : list (list F)).

(** Two arrays of different lengths, neither of one element, do not
    combine. *)
Lemma broadcast_mismatch (op : F -> F -> F) A B :
  length A <> length B -> length A <> 1 -> length B <> 1 ->
  np.broadcast op A B = Raise ValueError.
Proof.
  intros HAB HA HB. unfold np.broadcast.
  destruct (Nat.eqb_spec (length A) (length B)); [contradiction |].
  destruct A as [| a [| a' A]], B as [| b [| b' B]]; simpl in *;
    try contradiction; reflexivity.
Qed.

Lemma ones_length (n : nat) : length (np.ones n : list F) = n.
Proof. apply repeat_length. Qed.

(** X3. With a valid species index, vectors [A] and [B] of different
    lengths, neither of length one, make [f], [mu] and [nu] raise
    [ValueError]; [f] does so before it reads [D] or [R]. *)
Theorem length_mismatch_raises (i : Z) A B D R :
  (i = 0 \/ i = 1)%Z ->
  length A <> length B -> length A <> 1 -> length B <> 1 ->
  f i A B D R = Raise ValueError /\
  (has_shape D 2 3 = true -> mu i A B D = Raise ValueError) /\
  (has_shape D 2 3 = true -> has_shape R 2 3 = true ->
   nu i A B D R = Raise ValueError).
Proof.
  intros Hi HAB HA HB. split; [| split].
  - unfold f, np.vmul. rewrite (species_guard_passes Hi). cbn [bind].
    rewrite (broadcast_same_length mul A A eq_refl). cbn [bind].
    now rewrite broadcast_mismatch.
  - intros HD. unfold mu, np.vadd.
    rewrite (species_guard_passes Hi). cbn [bind].
    rewrite !item2_entry by (trivial; lia). cbn [bind].
    rewrite broadcast_same_length by now rewrite !scale_length, ones_length.
    cbn [bind]. apply broadcast_mismatch;
      rewrite ?zip_with_length_min, ?scale_length, ?ones_length, ?Nat.min_id;
      trivial.
  - intros HD HR. unfold nu, np.vadd.
    rewrite (species_guard_passes Hi). cbn [bind].
    rewrite !item2_entry by (trivial; lia). cbn [bind].
    rewrite broadcast_same_length by now rewrite !scale_length, ones_length.
    cbn [bind]. apply broadcast_mismatch;
      rewrite ?zip_with_length_min, ?scale_length, ?ones_length, ?Nat.min_id;
      trivial.
Qed.

Lemma bind_Ok_r {T : Type} (c : result T) : (x <- c ;; Ok x) = c.
Proof. now destruct c. Qed.

(** The first assignment of [UVtoX] always succeeds; what is left is the
    second one, into the upper half of a vector of twice the length. *)
Lemma UVtoX_second_assignment U V :
  UVtoX U V =
  seq.set_slice (U ++ np.zeros (length U)) (Some (Z.of_nat (length U))) None V.
Proof.
  unfold UVtoX, np.zeros.
  replace (Z.to_nat (2 * Z.of_nat (length U))) with (length U + length U) by lia.
  rewrite set_slice_to by (rewrite repeat_length; lia).
  cbn [bind].
  rewrite repeat_app, skipn_app, repeat_length, skipn_all2, Nat.sub_diag
    by (rewrite repeat_length; lia).
  cbn [skipn app]. apply bind_Ok_r.
Qed.

(** [X[k:] = V] in closed form. *)
Lemma set_slice_from_cases {T : Type} (X V : list T) (k : nat) :
  k <= length X ->
  seq.set_slice X (Some (Z.of_nat k)) None V =
  if length V =? length X - k then Ok (firstn k X ++ V)
  else match V with
       | [v] => Ok (firstn k X ++ repeat v (length X - k))
       | _ => Raise ValueError
       end.
Proof.
  intros Hk. unfold seq.set_slice, seq.slice_start, seq.slice_stop.
  rewrite clip_nat, Nat.min_r by assumption.
  rewrite skipn_all2 by lia.
  destruct (length V =? length X - k); [now rewrite app_nil_r |].
  destruct V as [| v [| v' V]]; rewrite ?app_nil_r; reflexivity.
Qed.

Lemma upper_half U :
  length U <= length (U ++ np.zeros (length U)) /\
  length (U ++ np.zeros (length U)) - length U = length U /\
  firstn (length U) (U ++ np.zeros (length U)) = U.
Proof.
  unfold np.zeros. rewrite length_app, repeat_length.
  rewrite firstn_app, Nat.sub_diag, firstn_all. cbn [firstn].
  rewrite app_nil_r. repeat split; lia.
Qed.

(** X4. [UVtoX] in closed form: it concatenates [U] and [V] when they have
    the same length, fills the second half with the single entry of a
    one-element [V], and raises [ValueError] on any other [V]. *)
Theorem UVtoX_cases U V :
  UVtoX U V =
  if length V =? length U then Ok (U ++ V)
  else match V with
       | [v] => Ok (U ++ repeat v (length U))
       | _ => Raise ValueError
       end.
Proof.
  destruct (upper_half U) as (Hk & Hm & Hf).
  now rewrite UVtoX_second_assignment, set_slice_from_cases, Hm, Hf.
Qed.

(** X5. Whenever [UVtoX] returns, the vector has twice the length of its
    first argument. *)
Theorem UVtoX_length U V X :
  UVtoX U V = Ok X -> length X = 2 * length U.
Proof.
  destruct (upper_half U) as (Hk & Hm & Hf).
  rewrite UVtoX_second_assignment, set_slice_from_cases, Hm, Hf by assumption.
  destruct (Nat.eqb_spec (length V) (length U)) as [E | E].
  - intros [= <-]. rewrite length_app. lia.
  - destruct V as [| v [| v' V]]; try discriminate.
    intros [= <-]. rewrite length_app, repeat_length. lia.
Qed.
End Mismatch.

(** ** Edge cases of the blocks and of their assembly *)

Section MoreJacobian.
Context {F : Type} `{Scalar F}.
Implicit Types (A : list F) (D R : list (list F)) (P Q S : list (list F)).

(** X6. With a valid species index and 2 x 3 matrices, [block_diags] raises
    [IndexError] on the empty vector and returns five parts on every other
    one; on a single node the two off-diagonal bands are empty and the two
    corners hold the same entry. *)
Theorem block_diags_small_grids (i : Z) D R :
  (i = 0 \/ i = 1)%Z -> has_shape D 2 3 = true -> has_shape R 2 3 = true ->
  block_diags i [] D R = Raise IndexError /\
  (forall a A, exists P, block_diags i (a :: A) D R = Ok P /\ length P = 5) /\
  (forall a, exists c m,
     block_diags i [a] D R = Ok [[c]; []; [m]; []; [c]] /\
     c = neg (mul (entry D i (2 - i)) a) /\
     m = add (mul (entry R i (2 - i)) a) (mul two (mul (entry D i (2 - i)) a))).
Proof.
  intros Hi HD HR.
  assert (Hc : (0 <= 2 - i <= 2)%Z) by lia.
  pose proof (item2_entry _ HD Hi Hc) as ED.
  pose proof (item2_entry _ HR Hi Hc) as ER.
  split; [| split].
  - unfold block_diags. rewrite ED. reflexivity.
  - intros a A. eexists. split.
    + apply (block_diags_value i D R ED ER). discriminate.
    + reflexivity.
  - intros a. do 2 eexists. split.
    + rewrite (block_diags_value i D R ED ER) by discriminate. reflexivity.
    + split; reflexivity.
Qed.

Lemma item_raises_IndexError {T : Type} (X : list T) (k : Z) (e : exn) :
  seq.item X k = Raise e -> e = IndexError.
Proof.
  unfold seq.item.
  destruct (seq.normalize_index (length X) k) as [n |]; [| congruence].
  destruct (nth_error X n); congruence.
Qed.

Lemma item_Ok_bound {T : Type} (X : list T) (k : nat) (x : T) :
  seq.item X (Z.of_nat k) = Ok x -> k < length X.
Proof.
  intros HX. destruct (Nat.lt_ge_cases k (length X)) as [Hk | Hk]; trivial.
  rewrite item_outside in HX by lia. discriminate.
Qed.

Lemma item_nth {T : Type} (X : list T) (k : nat) (d : T) :
  k < length X -> seq.item X (Z.of_nat k) = Ok (nth k X d).
Proof.
  intros Hk. apply item_nat. now apply nth_error_nth'.
Qed.

Ltac item_step HM :=
  match type of HM with
  | bind (seq.item ?X ?k) _ = _ =>
      let E := fresh "E" in
      destruct (seq.item X k) eqn:E; cbn [bind] in HM;
      [| apply item_raises_IndexError in E; congruence]
  end.

(** [merge_diags] raises nothing but [IndexError]. *)
Lemma merge_diags_raises_IndexError P Q R S (e : exn) :
  merge_diags P Q R S = Raise e -> e = IndexError.
Proof.
  intros HM. unfold merge_diags in HM. do 20 item_step HM. discriminate HM.
Qed.

Lemma merge_diags_Ok_lengths P Q R S bands :
  merge_diags P Q R S = Ok bands ->
  5 <= length P /\ 5 <= length Q /\ 5 <= length R /\ 5 <= length S.
Proof.
  intros HM. unfold merge_diags in HM.
  change 4%Z with (Z.of_nat 4) in HM.
  repeat match type of HM with
  | bind (seq.item ?X ?k) _ = _ =>
      let E := fresh "E" in
      destruct (seq.item X k) eqn:E; cbn [bind] in HM; [| discriminate HM]
  end.
  repeat match goal with
  | E : seq.item _ (Z.of_nat 4) = Ok _ |- _ => apply item_Ok_bound in E
  end.
  lia.
Qed.

(** X7. [merge_diags] returns, and then 11 bands, exactly when each of the
    four blocks has at least five parts; otherwise it raises
    [IndexError]. *)
Theorem merge_diags_needs_five_parts P Q R S :
  (5 <= length P /\ 5 <= length Q /\ 5 <= length R /\ 5 <= length S ->
   exists bands, merge_diags P Q R S = Ok bands /\ length bands = 11) /\
  (~ (5 <= length P /\ 5 <= length Q /\ 5 <= length R /\ 5 <= length S) ->
   merge_diags P Q R S = Raise IndexError).
Proof.
  split.
  - intros (HP & HQ & HR & HS). unfold merge_diags.
    change 0%Z with (Z.of_nat 0). change 1%Z with (Z.of_nat 1).
    change 2%Z with (Z.of_nat 2). change 3%Z with (Z.of_nat 3).
    change 4%Z with (Z.of_nat 4).
    rewrite !(fun X k => @item_nth (list F) X k []) by lia. cbn [bind].
    eexists. split; reflexivity.
  - intros Hnot. destruct (merge_diags P Q R S) as [bands | e] eqn:HM.
    + apply merge_diags_Ok_lengths in HM. contradiction.
    + now rewrite (merge_diags_raises_IndexError _ _ _ _ HM).
Qed.
End MoreJacobian.

(** ** The assembly keeps every entry *)

Ltac place_head :=
  lazymatch goal with
  | |- Permutation (?x :: ?l) ?r =>
      let T := type of x in
      let rec go pre post :=
        lazymatch post with
        | x :: ?t => apply (@Permutation_cons_app T l (rev pre) t x)
        | ?y :: ?t => go (y :: pre) t
        end in
      go (@nil T) r; cbn [rev app]
  end.

Section Conservation.
Context {F : Type} `{Scalar F}.
Implicit Types (P Q R S : list (list F)).

Lemma Permutation_concat (L1 L2 : list (list F)) :
  Permutation L1 L2 -> Permutation (concat L1) (concat L2).
Proof.
  induction 1 as [| x L1 L2 _ IH | x y L | L1 L2 L3 _ IH1 _ IH2]; cbn [concat].
  - apply perm_nil.
  - now apply Permutation_app_head.
  - rewrite !app_assoc. apply Permutation_app_tail, Permutation_app_comm.
  - now transitivity (concat L2).
Qed.

Lemma five_parts P :
  length P = 5 -> exists p0 p1 p2 p3 p4, P = [p0; p1; p2; p3; p4].
Proof.
  destruct P as [| p0 [| p1 [| p2 [| p3 [| p4 [| ? ?]]]]]]; try discriminate.
  intros _. now exists p0, p1, p2, p3, p4.
Qed.

(** X9. On four blocks of five parts each, the bands [merge_diags] returns
    hold, all together, exactly the entries of the four blocks: each entry
    once, none added. *)
Theorem merge_diags_keeps_entries P Q R S :
  length P = 5 -> length Q = 5 -> length R = 5 -> length S = 5 ->
  exists bands, merge_diags P Q R S = Ok bands /\
    Permutation (concat bands) (concat (P ++ Q ++ R ++ S)).
Proof.
  intros HP HQ HR HS.
  destruct (five_parts P HP) as (p0 & p1 & p2 & p3 & p4 & ->).
  destruct (five_parts Q HQ) as (q0 & q1 & q2 & q3 & q4 & ->).
  destruct (five_parts R HR) as (r0 & r1 & r2 & r3 & r4 & ->).
  destruct (five_parts S HS) as (s0 & s1 & s2 & s3 & s4 & ->).
  eexists. split; [reflexivity |].
  transitivity
    (concat [q0; q1; q2; p0; q3; s0; p1; q4; s1; p2; s2; p3; r0; s3; p4; r1; s4;
             r2; r3; r4]).
  - unfold np.concatenate. cbn [concat]. rewrite <- !app_assoc, !app_nil_r.
    cbn [app]. reflexivity.
  - apply Permutation_concat. cbn [app].
    do 20 place_head. apply perm_nil.
Qed.
End Conservation.

(** ** More algebraic identities, for exact scalars *)

Section MoreExact.
Context {F : Type} `{ExactScalar F}.
Implicit Types (A B Hs v : list F) (D R : list (list F)).

Add Ring scalar_ring_more : scalar_ring.

Lemma map_nth_lt (g : F -> F) v (p : nat) :
  p < length v -> nth p (map g v) zero = g (nth p v zero).
Proof.
  intros Hp. rewrite (nth_indep _ zero (g zero)) by now rewrite length_map.
  apply map_nth.
Qed.

Lemma roll_map (g : F -> F) v (s : Z) : np.roll (map g v) s = map g (np.roll v s).
Proof.
  rewrite !roll_rot, length_map. unfold rot.
  now rewrite map_app, skipn_map, firstn_map.
Qed.

Lemma vsum_app v w : vsum (v ++ w) = add (vsum v) (vsum w).
Proof.
  unfold vsum. induction v as [| x v IH]; cbn [app fold_right].
  - ring.
  - rewrite IH. ring.
Qed.

Lemma vsum_roll v (s : Z) : vsum (np.roll v s) = vsum v.
Proof.
  rewrite roll_rot. unfold rot.
  set (k := length v - Z.to_nat (s mod Z.of_nat (length v))).
  transitivity (vsum (firstn k v ++ skipn k v)).
  - rewrite !vsum_app. ring.
  - now rewrite firstn_skipn.
Qed.

Lemma vsum_zip_sub v w :
  length w = length v ->
  vsum (np.zip_with sub v w) = sub (vsum v) (vsum w).
Proof.
  unfold vsum. revert w. induction v as [| x v IH]; intros [| y w]; try easy.
  - intros _. cbn. ring.
  - intros [= E]. cbn [np.zip_with fold_right]. rewrite IH by assumption.
    ring.
Qed.

Lemma vsum_reaction (i : Z) D R A B :
  length B = length A ->
  sub (sub (vsum (np.zip_with (center_term i D R) A B))
           (vsum (np.zip_with (border_term i D) A B)))
      (vsum (np.zip_with (border_term i D) A B))
  = vsum (np.zip_with (reaction_term i R) A B).
Proof.
  unfold vsum. revert B. induction A as [| a A IH]; intros [| b B]; try easy.
  - intros _. cbn. ring.
  - intros [= E]. cbn [np.zip_with fold_right].
    rewrite <- (IH B E), <- (center_minus_borders i D R a b). ring.
Qed.

(** X10. Summed over the periodic grid, the diffusion terms of the residual
    cancel: the entries of [f] add up to the sum of the reaction terms
    [(1 - R[i,0]) a + R[i,i+1] a^2 + R[i,2-i] a b] of the nodes. *)
Theorem f_sum_is_reaction_sum (i : Z) A B D R :
  (i = 0 \/ i = 1)%Z -> has_shape D 2 3 = true -> has_shape R 2 3 = true ->
  length B = length A ->
  exists Y, f i A B D R = Ok Y /\
            vsum Y = vsum (np.zip_with (reaction_term i R) A B).
Proof.
  intros Hi HD HR E. eexists. split; [now apply f_value |].
  rewrite !vsum_zip_sub by vlen.
  rewrite !vsum_roll. now apply vsum_reaction.
Qed.

Lemma negative_removelast_last v :
  v <> [] -> np.negative (removelast v) ++ [neg (last v zero)] = np.negative v.
Proof.
  intros Hv. unfold np.negative.
  change [neg (last v zero)] with (map neg [last v zero]).
  now rewrite <- map_app, <- app_removelast_last.
Qed.

Lemma negative_head_tail v :
  v <> [] -> [neg (hd zero v)] ++ np.negative (skipn 1 v) = np.negative v.
Proof. destruct v; [congruence | reflexivity]. Qed.

Ltac entrywise :=
  apply (nth_ext _ _ zero zero); [vlen |];
  let p := fresh "p" in
  let Hp := fresh "Hp" in
  intros p Hp;
  repeat first [ rewrite zip_with_nth by vlen | rewrite map_nth_lt by vlen ].

(** X11. [block_diags] is the exact Jacobian of [f] in the other species:
    [f] is affine in [B], and a change [Hs] of [B] changes [f i A B D R] by
    the product of [Hs] with the periodic tridiagonal matrix whose main
    diagonal is the third part of the block, whose sub-diagonal and
    top-right corner are the fourth and first parts, and whose
    super-diagonal and bottom-left corner are the second and fifth. *)
Theorem block_diags_cross_jacobian (i : Z) A B Hs D R :
  (i = 0 \/ i = 1)%Z -> has_shape D 2 3 = true -> has_shape R 2 3 = true ->
  A <> [] -> length B = length A -> length Hs = length A ->
  exists c0 up mn lo c1 B' Y' Y,
    block_diags i A D R = Ok [c0; up; mn; lo; c1] /\
    np.vadd B Hs = Ok B' /\
    f i A B' D R = Ok Y' /\ f i A B D R = Ok Y /\
    np.zip_with sub Y' Y =
    np.zip_with add
      (np.zip_with add (np.zip_with mul mn Hs)
                       (np.roll (np.zip_with mul (lo ++ c0) Hs) 1))
      (np.roll (np.zip_with mul (c1 ++ up) Hs) (-1)).
Proof.
  intros Hi HD HR HA EB EH.
  assert (Hc : (0 <= 2 - i <= 2)%Z) by lia.
  pose proof (block_diags_value i D R (item2_entry _ HD Hi Hc)
                (item2_entry _ HR Hi Hc) HA) as V.
  assert (HF : np.scale (entry D i (2 - i)) A <> [])
    by (destruct A; [congruence | discriminate]).
  do 8 eexists.
  split; [exact V |].
  split; [apply broadcast_same_length; congruence |].
  split; [apply f_value; trivial; vlen |].
  split; [now apply f_value |].
  rewrite (negative_removelast_last HF), (negative_head_tail HF).
  unfold np.negative, np.scale.
  rewrite !roll_zip_with by vlen. rewrite !roll_map.
  entrywise.
  unfold center_term, border_term, two. ring.
Qed.

(** X12. The expansion of [f] in its own species: a change [Hs] of [A]
    changes [f i A B D R] by the first-order term
    [nu * Hs - roll(mu * Hs, 1) - roll(mu * Hs, -1)], which is the product
    of [Hs] with the periodic tridiagonal Jacobian built from [nu] and [mu],
    plus the second-order term
    [c * Hs^2 - roll(d * Hs^2, 1) - roll(d * Hs^2, -1)] with
    [c = R[i,i+1] + 2 D[i,i+1]] and [d = D[i,i+1]], exactly. *)
Theorem f_expansion_own_species (i : Z) A B Hs D R :
  (i = 0 \/ i = 1)%Z -> has_shape D 2 3 = true -> has_shape R 2 3 = true ->
  length B = length A -> length Hs = length A ->
  exists A' Y' Y N M,
    np.vadd A Hs = Ok A' /\
    f i A' B D R = Ok Y' /\ f i A B D R = Ok Y /\
    nu i A B D R = Ok N /\ mu i A B D = Ok M /\
    np.zip_with sub Y' Y =
    np.zip_with add
      (np.zip_with sub
         (np.zip_with sub (np.zip_with mul N Hs)
                          (np.roll (np.zip_with mul M Hs) 1))
         (np.roll (np.zip_with mul M Hs) (-1)))
      (np.zip_with sub
         (np.zip_with sub
            (np.scale (add (entry R i (i + 1)) (mul two (entry D i (i + 1))))
                      (np.zip_with mul Hs Hs))
            (np.roll (np.scale (entry D i (i + 1)) (np.zip_with mul Hs Hs)) 1))
         (np.roll (np.scale (entry D i (i + 1)) (np.zip_with mul Hs Hs)) (-1))).
Proof.
  intros Hi HD HR EB EH.
  do 5 eexists.
  split; [now apply broadcast_same_length |].
  split; [apply f_value; trivial; vlen |].
  split; [now apply f_value |].
  split; [now apply nu_value |].
  split; [now apply mu_value |].
  unfold np.scale.
  rewrite !roll_map. rewrite !roll_zip_with by vlen.
  entrywise.
  unfold center_term, border_term, nu_term, mu_term, two. ring.
Qed.
End MoreExact.

(** ** A one-element second vector *)

Section ConstantField.
Context {F : Type} `{Scalar F}.
Implicit Types (A B : list F) (D R : list (list F)).

Lemma zip_with_repeat_r (op : F -> F -> F) A (b : F) :
  np.zip_with op A (repeat b (length A)) = map (fun a => op a b) A.
Proof. induction A as [| a A IH]; simpl; [| rewrite IH]; reflexivity. Qed.

Lemma broadcast_single_r (op : F -> F -> F) A (b : F) :
  np.broadcast op A [b] = np.broadcast op A (repeat b (length A)).
Proof.
  rewrite (broadcast_same_length op A (repeat b (length A)))
    by apply repeat_length.
  rewrite zip_with_repeat_r. unfold np.broadcast.
  destruct A as [| a [| a' A]]; reflexivity.
Qed.

(** X13. A second vector of one element acts as a constant field: [f]
    treats [[b]] as the vector that repeats [b] at every node of [A]. *)
Theorem f_constant_second_vector (i : Z) A (b : F) D R :
  f i A [b] D R = f i A (repeat b (length A)) D R.
Proof.
  unfold f, np.vmul. now rewrite broadcast_single_r.
Qed.
End ConstantField.

(** ** The further statements at the sample data *)

Lemma f_translation_invariant_witness :
  exists Y,
    f 1 [1; 2; 3]%Z [1; 1; 1]%Z sample_D sample_R = Ok Y /\
    f 1 (np.roll [1; 2; 3]%Z 1) (np.roll [1; 1; 1]%Z 1) sample_D sample_R
    = Ok (np.roll Y 1).
Proof.
  apply f_translation_invariant;
    [right; reflexivity | reflexivity | reflexivity | reflexivity].
Defined.

Lemma f_three_point_stencil_witness :
  exists Y,
    f 1 [1; 2; 3]%Z [1; 1; 1]%Z sample_D sample_R = Ok Y /\
    length Y = 3 /\
    forall p, p < 3 ->
      nth p Y 0%Z =
      sub (sub (center_term 1 sample_D sample_R
                  (nth p [1; 2; 3]%Z 0%Z) (nth p [1; 1; 1]%Z 0%Z))
               (border_term 1 sample_D
                  (nth ((p + 3 - 1) mod 3) [1; 2; 3]%Z 0%Z)
                  (nth ((p + 3 - 1) mod 3) [1; 1; 1]%Z 0%Z)))
          (border_term 1 sample_D
             (nth ((p + 1) mod 3) [1; 2; 3]%Z 0%Z)
             (nth ((p + 1) mod 3) [1; 1; 1]%Z 0%Z)).
Proof.
  exact (f_three_point_stencil (i := 1) [1; 2; 3]%Z [1; 1; 1]%Z
           sample_D sample_R (or_intror eq_refl) eq_refl eq_refl eq_refl).
Defined.

Lemma length_mismatch_raises_witness :
  f 0 [1; 2]%Z [1; 2; 3]%Z sample_D sample_R = Raise ValueError /\
  mu 0 [1; 2]%Z [1; 2; 3]%Z sample_D = Raise ValueError /\
  nu 0 [1; 2]%Z [1; 2; 3]%Z sample_D sample_R = Raise ValueError.
Proof.
  assert (Hi : (0 = 0 \/ 0 = 1)%Z) by (left; reflexivity).
  assert (H1 : length [1; 2]%Z <> length [1; 2; 3]%Z) by discriminate.
  assert (H2 : length [1; 2]%Z <> 1) by discriminate.
  assert (H3 : length [1; 2; 3]%Z <> 1) by discriminate.
  destruct (@length_mismatch_raises Z _ 0%Z [1; 2]%Z [1; 2; 3]%Z
              sample_D sample_R Hi H1 H2 H3)
    as (Hf & Hmu & Hnu).
  split; [exact Hf |]. split; [apply Hmu; reflexivity |].
  apply Hnu; reflexivity.
Defined.

Lemma UVtoX_length_witness :
  UVtoX [1; 2]%Z [3]%Z = Ok [1; 2; 3; 3]%Z /\
  length [1; 2; 3; 3]%Z = 2 * length [1; 2]%Z.
Proof.
  assert (E : UVtoX [1; 2]%Z [3]%Z = Ok [1; 2; 3; 3]%Z) by reflexivity.
  split; [exact E | exact (UVtoX_length _ _ E)].
Defined.

Lemma block_diags_small_grids_witness :
  block_diags 0 [] sample_D sample_R = Raise IndexError /\
  (forall a A, exists P, block_diags 0 (a :: A) sample_D sample_R = Ok P /\
                         length P = 5) /\
  (forall a, exists c m,
     block_diags 0 [a] sample_D sample_R = Ok [[c]; []; [m]; []; [c]] /\
     c = neg (mul (entry sample_D 0 (2 - 0)) a) /\
     m = add (mul (entry sample_R 0 (2 - 0)) a)
             (mul two (mul (entry sample_D 0 (2 - 0)) a))).
Proof.
  apply (block_diags_small_grids (i := 0) sample_D sample_R);
    [left; reflexivity | reflexivity | reflexivity].
Defined.

Lemma merge_diags_needs_five_parts_witness :
  (exists bands,
     merge_diags sample_block sample_block sample_block sample_block = Ok bands /\
     length bands = 11) /\
  merge_diags sample_block [[1]; [2]; [3]; [4]]%Z sample_block sample_block
  = Raise IndexError.
Proof.
  split.
  - apply merge_diags_needs_five_parts. unfold sample_block. cbn [length]. lia.
  - apply merge_diags_needs_five_parts. unfold sample_block. cbn [length]. lia.
Defined.

Lemma merge_diags_keeps_entries_witness :
  exists bands,
    merge_diags sample_block sample_block sample_block sample_block = Ok bands /\
    Permutation (concat bands)
      (concat (sample_block ++ sample_block ++ sample_block ++ sample_block)).
Proof.
  apply merge_diags_keeps_entries; reflexivity.
Defined.

Lemma f_sum_is_reaction_sum_witness :
  exists Y,
    f 1 [1; 2; 3]%Z [1; 1; 1]%Z sample_D sample_R = Ok Y /\
    vsum Y = vsum (np.zip_with (reaction_term 1 sample_R) [1; 2; 3]%Z [1; 1; 1]%Z).
Proof.
  apply f_sum_is_reaction_sum;
    [right; reflexivity | reflexivity | reflexivity | reflexivity].
Defined.

Lemma block_diags_cross_jacobian_witness :
  exists c0 up mn lo c1 B' Y' Y,
    block_diags 0 [1; 2; 3]%Z sample_D sample_R = Ok [c0; up; mn; lo; c1] /\
    np.vadd [1; 1; 1]%Z [4; 5; 6]%Z = Ok B' /\
    f 0 [1; 2; 3]%Z B' sample_D sample_R = Ok Y' /\
    f 0 [1; 2; 3]%Z [1; 1; 1]%Z sample_D sample_R = Ok Y /\
    np.zip_with sub Y' Y =
    np.zip_with add
      (np.zip_with add (np.zip_with mul mn [4; 5; 6]%Z)
                       (np.roll (np.zip_with mul (lo ++ c0) [4; 5; 6]%Z) 1))
      (np.roll (np.zip_with mul (c1 ++ up) [4; 5; 6]%Z) (-1)).
Proof.
  apply block_diags_cross_jacobian;
    [left; reflexivity | reflexivity | reflexivity | discriminate
    | reflexivity | reflexivity].
Defined.

Lemma f_expansion_own_species_witness :
  exists A' Y' Y N M,
    np.vadd [1; 2; 3]%Z [4; 5; 6]%Z = Ok A' /\
    f 0 A' [1; 1; 1]%Z sample_D sample_R = Ok Y' /\
    f 0 [1; 2; 3]%Z [1; 1; 1]%Z sample_D sample_R = Ok Y /\
    nu 0 [1; 2; 3]%Z [1; 1; 1]%Z sample_D sample_R = Ok N /\
    mu 0 [1; 2; 3]%Z [1; 1; 1]%Z sample_D = Ok M /\
    np.zip_with sub Y' Y =
    np.zip_with add
      (np.zip_with sub
         (np.zip_with sub (np.zip_with mul N [4; 5; 6]%Z)
                          (np.roll (np.zip_with mul M [4; 5; 6]%Z) 1))
         (np.roll (np.zip_with mul M [4; 5; 6]%Z) (-1)))
      (np.zip_with sub
         (np.zip_with sub
            (np.scale (add (entry sample_R 0 (0 + 1))
                           (mul two (entry sample_D 0 (0 + 1))))
                      (np.zip_with mul [4; 5; 6]%Z [4; 5; 6]%Z))
            (np.roll (np.scale (entry sample_D 0 (0 + 1))
                               (np.zip_with mul [4; 5; 6]%Z [4; 5; 6]%Z)) 1))
         (np.roll (np.scale (entry sample_D 0 (0 + 1))
                            (np.zip_with mul [4; 5; 6]%Z [4; 5; 6]%Z)) (-1))).
Proof.
  apply (f_expansion_own_species (i := 0) [1; 2; 3]%Z [1; 1; 1]%Z [4; 5; 6]%Z
           sample_D sample_R);
    [left; reflexivity | reflexivity | reflexivity | reflexivity | reflexivity].
Defined.
